(** * MFI credit grade calculator: the scoring core of [src/main.jsx]

    A shallow embedding of the aggregation and grading functions
    ([clamp], [makeKey], [computeWeighted], [gradeFromScore]) and of the
    state handling of the [App] component (derived values, config upload,
    score export), followed by the properties of the specification.

    Conventions of the embedding.
    - A JavaScript number is an IEEE 754 binary64 value: Rocq's primitive
      [float].  Leibniz equality on [float] is JavaScript's [Object.is]
      (one NaN, [+0] distinct from [-0]).
    - A JavaScript object used as a dictionary whose property order is
      irrelevant ([scores], [perDim], [perDimDen]) is a [gmap string _];
      an assignment [o[k] = v] is [setProperty], which accounts for the
      inherited accessor [__proto__].
    - A JavaScript object that the code iterates ([model] and the
      subcategory objects) is the list of its entries in the order
      [Object.entries] / [Object.values] yields them. *)

From Stdlib Require Import ZArith Floats Bool Lia.
From Stdlib Require Uint63.
From stdpp Require Import gmap strings list fin_maps.

Set Warnings "-inexact-float".
Local Open Scope float_scope.

(* ------------------------------------------------------------------ *)
(** ** JavaScript numbers *)
(* ------------------------------------------------------------------ *)

(** Truthiness of a number: every number but [+0], [-0] and NaN. *)
Definition truthy (x : float) : bool := negb (is_zero x || is_nan x).

(** [a || b] on numbers. *)
Definition js_or (a b : float) : float := if truthy a then a else b.

(** [Math.max(a, b)]: NaN if either argument is NaN, [+0] is larger than
    [-0]. *)
Definition Math_max (a b : float) : float :=
  if is_nan a || is_nan b then nan
  else if a <? b then b
  else if Leibniz.eqb a neg_zero && Leibniz.eqb b zero then b
  else a.

(** [Math.min(a, b)]: NaN if either argument is NaN, [-0] is smaller than
    [+0]. *)
Definition Math_min (a b : float) : float :=
  if is_nan a || is_nan b then nan
  else if b <? a then b
  else if Leibniz.eqb a zero && Leibniz.eqb b neg_zero then b
  else a.

(** [const clamp = (v, min, max) => Math.max(min, Math.min(max, v))] *)
Definition clamp (v lo hi : float) : float := Math_max lo (Math_min hi v).

(** [Number(x.toFixed(2))].

    [toFixed(2)] of a finite [x] below [10^21] in magnitude prints the
    integer [n] for which [n / 100] is nearest to the exact value of [|x|]
    (the larger [n] on a tie) with two fraction digits, behind a minus sign
    when [x < 0]; [Number] reads the decimal back as the nearest double.
    For NaN, the infinities and magnitudes from [10^21] on, [toFixed]
    prints what [String(x)] prints and [Number] reads [x] back. *)
Definition toFixed2_n (m : positive) (e : Z) : Z :=
  if (0 <=? e)%Z then 100 * Z.pos m * 2 ^ e
  else (200 * Z.pos m + 2 ^ (- e)) / (2 * 2 ^ (- e)).

Definition Number_toFixed2 (x : float) : float :=
  match Prim2SF x with
  | S754_finite s m e =>
      if 1e21 <=? abs x then x
      else
        let n := toFixed2_n m e in
        (* from [2^53] on the doubles are more than 0.01 apart: the decimal
           within 0.005 of [x] reads back as [x] *)
        if (n <? 2 ^ 53)%Z then
          let r := of_uint63 (Uint63.of_Z n) / 100 in
          if s then - r else r
        else x
  | S754_zero _ => 0
  | _ => x
  end.

(* ------------------------------------------------------------------ *)
(** ** Data model *)
(* ------------------------------------------------------------------ *)

(** An indicator: [{ kpi, weight, explanation }]. *)
Record Item := mkItem {
  kpi : string;
  weight : float;
  explanation : option string
}.

(** A dimension's subcategories, and the dimension map [config.model]. *)
Definition Subs := list (string * list Item).
Definition Model := list (string * Subs).

(** A grade band: [{ label, min }]. *)
Record Band := mkBand {
  label : string;
  min : float
}.

(** The result of [computeWeighted]: [{ total, perDim, perDimDen }]. *)
Record Weighted := mkWeighted {
  total : float;
  perDim : gmap string float;
  perDimDen : gmap string float
}.

(* ------------------------------------------------------------------ *)
(** ** Utilities of section 2 of the source *)
(* ------------------------------------------------------------------ *)

(** [function makeKey(dim, item) { return `${dim}::${item.kpi}`; }] *)
Definition makeKey (dim : string) (item : Item) : string :=
  dim +:+ "::" +:+ kpi item.

(** [clamp(Number(scores[key] ?? 0), 0, 5)] *)
Definition ratingOf (scores : gmap string float) (key : string) : float :=
  clamp (default 0 (scores !! key)) 0 5.

(** [Number(item.weight || 0)] *)
Definition weightOf (item : Item) : float := js_or (weight item) 0.

(** The body of the innermost [forEach], on the three running sums
    [(dimSum, dimW, total)]. *)
Definition item_step (dim : string) (scores : gmap string float)
    (acc : float * float * float) (item : Item) : float * float * float :=
  let '(dimSum, dimW, tot) := acc in
  let key := makeKey dim item in
  let s := ratingOf scores key in
  let w := weightOf item in
  (dimSum + w * (s / 5), dimW + w, tot + w * (s / 5)).

(** [Object.values(subs).forEach((arr) => { arr.forEach(...) })] *)
Definition subs_loop (dim : string) (scores : gmap string float)
    (subs : Subs) (acc : float * float * float) : float * float * float :=
  fold_left (fun a arr => fold_left (item_step dim scores) arr a)
            (map snd subs) acc.

(** [o[k] = v] on a plain object [o] and a number [v]: the own property
    [k] is written, except for the key [__proto__], which every plain
    object inherits as an accessor whose setter ignores a number; such an
    assignment leaves [o] without an own property of that name. *)
Definition setProperty (o : gmap string float) (k : string) (v : float)
    : gmap string float :=
  if decide (k = "__proto__") then o else <[k := v]> o.

(** The body of the outer [forEach] over [Object.entries(model)]. *)
Definition dim_step (scores : gmap string float) (acc : Weighted)
    (entry : string * Subs) : Weighted :=
  let '(dim, subs) := entry in
  let '(dimSum, dimW, tot) := subs_loop dim scores subs (0, 0, total acc) in
  {| total := tot;
     perDim := setProperty (perDim acc) dim dimSum;
     perDimDen := setProperty (perDimDen acc) dim (js_or dimW 1) |}.

Definition computeWeighted (model : Model) (scores : gmap string float)
    : Weighted :=
  fold_left (dim_step scores) model
            {| total := 0; perDim := ∅; perDimDen := ∅ |}.

(** The [for (const b of bands)] loop of [gradeFromScore]: [Some] label
    when the loop returns, [None] when it falls through. *)
Fixpoint gradeFromScore_scan (pct : float) (bands : list Band)
    : option string :=
  match bands with
  | [] => None
  | b :: rest =>
      if min b <=? pct then Some (label b)
      else gradeFromScore_scan pct rest
  end.

(** [function gradeFromScore(pct, bands)], with the fall-back
    [bands[bands.length - 1]?.label ?? "N/A"]. *)
Definition gradeFromScore (pct : float) (bands : list Band) : string :=
  match gradeFromScore_scan pct bands with
  | Some l => l
  | None =>
      match last bands with
      | Some b => label b
      | None => "N/A"
      end
  end.

(** [const totalPct = clamp(Number((total * 100).toFixed(2)), 0, 100)] *)
Definition totalPct_of (tot : float) : float :=
  clamp (Number_toFixed2 (tot * 100)) 0 100.

(** The bands the component starts with. *)
Definition initial_bands : list Band :=
  [ mkBand "A" 85; mkBand "B" 70; mkBand "C" 55; mkBand "D" 40;
    mkBand "E" 0 ].


(** [clamp((perDim[dim] / (perDimDen[dim] || 1)) * 100, 0, 100)], the
    percentage reported for a dimension.  A property that is not an own
    property reads as [undefined], NaN in arithmetic and falsy under [||];
    under the key [__proto__] it reads as the prototype object, NaN in
    arithmetic and truthy under [||]. *)
Definition radarScore (w : Weighted) (dim : string) : float :=
  clamp ((default nan (perDim w !! dim)
          / match perDimDen w !! dim with
            | Some den => js_or den 1
            | None => if decide (dim = "__proto__") then nan else 1
            end) * 100) 0 100.

(** [radarData]: one [{ dimension, score }] per key of [config.model]. *)
Definition radarData (model : Model) (w : Weighted) : list (string * float) :=
  map (fun dim => (dim, radarScore w dim)) (map fst model).

(* ------------------------------------------------------------------ *)
(** ** Section 1 of the source: the default configuration *)
(* ------------------------------------------------------------------ *)

(** A configuration document: [{ meta: { total_weight }, model }].  Only
    [model] is ever read. *)
Record Config := mkConfig {
  meta_total_weight : option float;
  model : Model
}.

Definition item (k : string) (w : float) (expl : string) : Item :=
  mkItem k w (Some expl).

Definition DEFAULT_CONFIG : Config :=
  {| meta_total_weight := Some 1;
     model :=
       [ ("Financial Performance",
          [ ("Credit Risk",
             [ item "PAR > 30 Days" 0.05
                 "Portfolio overdue >30 days; early delinquency risk indicator.";
               item "Write-off Ratio" 0.03
                 "Write-offs / avg. portfolio; loss realization and discipline." ]);
            ("Market Position",
             [ item "Client Outreach Growth" 0.02
                 "YoY growth in borrowers/AUM; franchise momentum.";
               item "Market Share" 0.03
                 "Share of industry GLP; competitive strength and scale." ]);
            ("Profitability & Sustainability",
             [ item "RoA" 0.04
                 "Net profit / avg. assets; profitability per rupee of assets.";
               item "RoE" 0.05
                 "Net profit / avg. equity; shareholder return; growth buffers.";
               item "OSS" 0.06
                 "Operating revenue / operating costs; >=110% indicates self-sufficiency." ]) ]);
         ("Refinancing & Liquidity",
          [ ("Reputation",
             [ item "Credit Rating History" 0.03
                 "External view of credit strength; impacts funding access/cost." ]);
            ("Diversification",
             [ item "Borrowing Source Mix" 0.03
                 "Diversity/tenor of liabilities; lowers refinancing/liquidity risk." ]);
            ("Liquidity Management",
             [ item "Liquidity Coverage Ratio" 0.04
                 "High-quality liquid assets vs. 30-day net outflows; resilience." ]) ]);
         ("Governance & Management",
          [ ("Board Effectiveness",
             [ item "Board Diversity" 0.01
                 "Balanced board composition improves oversight and trust.";
               item "Meeting Frequency" 0.01
                 "Regular board/committee cadence supports governance effectiveness." ]);
            ("Management Experience",
             [ item "Years in Microfinance" 0.02
                 "Institutional experience; process maturity and credit culture.";
               item "Crisis Management" 0.01
                 "Response to shocks; playbooks, decision speed, stakeholder comms." ]);
            ("Internal Controls",
             [ item "Audit Compliance" 0.02
                 "Internal/Statutory audit findings, closure rates, repeat issues." ]) ]) ]
  |}.

(* ------------------------------------------------------------------ *)
(** ** Vocabulary of the properties *)
(* ------------------------------------------------------------------ *)

(** The indicators of a dimension, and of a whole model with their
    dimension, in the order the loops of [computeWeighted] visit them. *)
Definition dimItems (subs : Subs) : list Item := concat (map snd subs).

Definition allItems (m : Model) : list (string * Item) :=
  flat_map (fun entry => map (pair entry.1) (dimItems entry.2)) m.

(** What one indicator adds to the sums: [w * (s / 5)]. *)
Definition contribution (dim : string) (scores : gmap string float)
    (it : Item) : float :=
  weightOf it * (ratingOf scores (makeKey dim it) / 5).

(** The contributions, and the weights, of a dimension summed from [a] on
    in visiting order. *)
Definition dimSum_from (dim : string) (scores : gmap string float)
    (subs : Subs) (a : float) : float :=
  fold_left (fun x it => x + contribution dim scores it) (dimItems subs) a.

Definition dimWeight_from (subs : Subs) (a : float) : float :=
  fold_left (fun x it => x + weightOf it) (dimItems subs) a.

(** The sum of all indicator weights of a config, in visiting order. *)
Definition sumWeights (m : Model) : float :=
  fold_left (fun x e => x + weightOf e.2) (allItems m) 0.

(** The sum of all contributions of a config. *)
Definition sumContributions (m : Model) (scores : gmap string float) : float :=
  fold_left (fun x e => x + contribution e.1 scores e.2) (allItems m) 0.

(** Two ratings maps agree on the indicators of dimension [dim] of [m]. *)
Definition agreeOn (dim : string) (m : Model) (sc1 sc2 : gmap string float)
    : Prop :=
  forall subs sub arr it,
    (dim, subs) ∈ m -> (sub, arr) ∈ subs -> it ∈ arr ->
    sc1 !! makeKey dim it = sc2 !! makeKey dim it.

(** A ratings map that rates every indicator of [m] with [r]. *)
Definition rateAll (m : Model) (r : float) : gmap string float :=
  list_to_map (map (fun e => (makeKey e.1 e.2, r)) (allItems m)).

(** Every stored rating is a value that [clamp(., 0, 5)] returns. *)
Definition clampedRatings (sc : gmap string float) : Prop :=
  forall key r, sc !! key = Some r -> clamp r 0 5 = r.

(** Every indicator of the model is rated [r] after clamping. *)
Definition ratedAt (m : Model) (sc : gmap string float) (r : float) : Prop :=
  forall dim it, (dim, it) ∈ allItems m -> ratingOf sc (makeKey dim it) = r.

(** No indicator weight of the model, read as the code reads it, is
    infinite. *)
Definition finiteWeights (m : Model) : Prop :=
  forall dim it, (dim, it) ∈ allItems m -> is_finite (weightOf it) = true.

(** A number that is NaN or lies between 0 and 100. *)
Definition percentage (p : float) : Prop :=
  is_nan p = true \/ ((0 <=? p) = true /\ (p <=? 100) = true).

(** Bands in descending order of [min]. *)
Fixpoint descending (bands : list Band) : Prop :=
  match bands with
  | [] => True
  | a :: rest =>
      Forall (fun b => (min b <=? min a) = true) rest /\ descending rest
  end.

(** Every threshold of a band list is a percentage. *)
Definition thresholdsInRange (bs : list Band) : Prop :=
  Forall (fun b => percentage (min b)) bs.

(* ------------------------------------------------------------------ *)
(** ** Section 3 of the source: the [App] component *)
(* ------------------------------------------------------------------ *)

Module App.

(** An object held in React state: its identity and its content.  The
    component never mutates a state object in place, every setter call
    stores a newly allocated one. *)
Record Ref (A : Type) := mkRef { addr : nat; deref : A }.
Arguments mkRef {A} _ _.
Arguments addr {A} _.
Arguments deref {A} _.

(** What [useMemo] keeps between renders: the dependency values of the
    last computation and its result. *)
Record Memo (D V : Type) := mkMemo { deps : D; value : V }.
Arguments mkMemo {D V} _ _.
Arguments deps {D V} _.
Arguments value {D V} _.

(** The hooks of one mounted [App]: four [useState] cells and the
    [useMemo] cells of [computeWeighted], [totalPct] and [finalGrade];
    [next_addr] is the allocator of object identities. *)
Record Hooks := mkHooks {
  config : Ref Config;
  scores : Ref (gmap string float);
  bands : Ref (list Band);
  showSettings : bool;
  memo_weighted : Memo (nat * nat) Weighted;
  memo_totalPct : Memo float float;
  memo_finalGrade : Memo (float * nat) string;
  next_addr : nat
}.

(** [Object.is] on the dependency arrays used by the component. *)
Definition same_number (a b : float) : bool := Leibniz.eqb a b.
Definition same_object (a b : nat) : bool := Nat.eqb a b.

(** [useMemo(compute, deps)] on a re-render: the stored value is kept when
    every dependency is the same as at the last computation. *)
Definition useMemo {D V : Type} (same : D -> D -> bool) (cell : Memo D V)
    (compute : unit -> V) (d : D) : Memo D V :=
  if same (deps cell) d then cell else mkMemo d (compute tt).

(** One render of [App]: lines 112-118. *)
Definition render (h : Hooks) : Hooks :=
  let mw :=
    useMemo (fun a b => same_object a.1 b.1 && same_object a.2 b.2)
            (memo_weighted h)
            (fun _ => computeWeighted (model (deref (config h)))
                                      (deref (scores h)))
            (addr (config h), addr (scores h)) in
  let mt :=
    useMemo same_number (memo_totalPct h)
            (fun _ => totalPct_of (total (value mw)))
            (total (value mw)) in
  let mg :=
    useMemo (fun a b => same_number a.1 b.1 && same_object a.2 b.2)
            (memo_finalGrade h)
            (fun _ => gradeFromScore (value mt) (deref (bands h)))
            (value mt, addr (bands h)) in
  {| config := config h; scores := scores h; bands := bands h;
     showSettings := showSettings h;
     memo_weighted := mw; memo_totalPct := mt; memo_finalGrade := mg;
     next_addr := next_addr h |}.

(** The first render of a component whose state cells start at [cfg],
    [sc] and [bs]: every memo is computed. *)
Definition mount (cfg : Config) (sc : gmap string float) (bs : list Band)
    : Hooks :=
  let w := computeWeighted (model cfg) sc in
  let pct := totalPct_of (total w) in
  {| config := mkRef 0 cfg; scores := mkRef 1 sc; bands := mkRef 2 bs;
     showSettings := false;
     memo_weighted := mkMemo (0, 1)%nat w;
     memo_totalPct := mkMemo (total w) pct;
     memo_finalGrade := mkMemo (pct, 2%nat) (gradeFromScore pct bs);
     next_addr := 3 |}.

(** [App] as the source starts it: [useState(DEFAULT_CONFIG)],
    [useState({})], [useState([{A,85}, ...])]. *)
Definition initial : Hooks := mount DEFAULT_CONFIG ∅ initial_bands.

(** The values a render binds and its handlers close over. *)
Definition totalPct (h : Hooks) : float := value (memo_totalPct h).
Definition finalGrade (h : Hooks) : string := value (memo_finalGrade h).

(** [const value = Number(scores[key] ?? 0)], the rating an indicator's
    slider and buttons show. *)
Definition ratingShown (h : Hooks) (key : string) : float :=
  default 0 (deref (scores h) !! key).

(** State setters: each stores a new object. *)
Definition setConfig (c : Config) (h : Hooks) : Hooks :=
  {| config := mkRef (next_addr h) c; scores := scores h; bands := bands h;
     showSettings := showSettings h;
     memo_weighted := memo_weighted h; memo_totalPct := memo_totalPct h;
     memo_finalGrade := memo_finalGrade h;
     next_addr := S (next_addr h) |}.

Definition setScores (sc : gmap string float) (h : Hooks) : Hooks :=
  {| config := config h; scores := mkRef (next_addr h) sc; bands := bands h;
     showSettings := showSettings h;
     memo_weighted := memo_weighted h; memo_totalPct := memo_totalPct h;
     memo_finalGrade := memo_finalGrade h;
     next_addr := S (next_addr h) |}.

Definition setBands (bs : list Band) (h : Hooks) : Hooks :=
  {| config := config h; scores := scores h; bands := mkRef (next_addr h) bs;
     showSettings := showSettings h;
     memo_weighted := memo_weighted h; memo_totalPct := memo_totalPct h;
     memo_finalGrade := memo_finalGrade h;
     next_addr := S (next_addr h) |}.

Definition setShowSettings (b : bool) (h : Hooks) : Hooks :=
  {| config := config h; scores := scores h; bands := bands h;
     showSettings := b;
     memo_weighted := memo_weighted h; memo_totalPct := memo_totalPct h;
     memo_finalGrade := memo_finalGrade h;
     next_addr := next_addr h |}.

(** [setScores((s) => ({ ...s, [key]: clamp(val, 0, 5) }))] *)
Definition handleScore (key : string) (val : float) (h : Hooks) : Hooks :=
  setScores (<[key := clamp val 0 5]> (deref (scores h))) h.

(** [const handleReset = () => setScores({})] *)
Definition handleReset (h : Hooks) : Hooks := setScores ∅ h.

(** What [JSON.parse] returns for an uploaded document, read through the
    fields the component uses: [doc_model] is [None] when [json.model] is
    missing (or otherwise falsy). *)
Record Document := mkDocument {
  doc_meta_total_weight : option float;
  doc_model : option Model
}.

(** The outcome of [await file.text()] followed by [JSON.parse(text)]:
    an exception with its [message], or the parsed document. *)
Inductive Parsed :=
  | Threw (message : string)
  | Returned (json : Document).

(** [handleUpload]; the argument is [evt.target.files?.[0]] as far as the
    handler looks at it, the second component of the result the text
    passed to [alert], if any. *)
Definition handleUpload (file : option Parsed) (h : Hooks)
    : Hooks * option string :=
  match file with
  | None => (h, None)
  | Some (Threw message) => (h, Some ("Couldn't load JSON: " +:+ message))
  | Some (Returned json) =>
      match doc_model json with
      | None =>
          (h, Some ("Couldn't load JSON: " +:+ "Invalid config: missing 'model'"))
      | Some m =>
          (setScores ∅ (setConfig (mkConfig (doc_meta_total_weight json) m) h),
           None)
      end
  end.

(** The object [handleDownloadScores] passes to [JSON.stringify]:
    [{ scores, totalPct, finalGrade }]. *)
Record Snapshot := mkSnapshot {
  snap_scores : gmap string float;
  snap_totalPct : float;
  snap_finalGrade : string
}.

(** [handleDownloadScores]: the hooks afterwards and the downloaded
    snapshot. *)
Definition handleDownloadScores (h : Hooks) : Hooks * Snapshot :=
  (h, {| snap_scores := deref (scores h);
         snap_totalPct := totalPct h;
         snap_finalGrade := finalGrade h |}).

(** The band editors of the settings panel. *)
Definition setBandLabel (idx : nat) (v : string) (h : Hooks) : Hooks :=
  setBands (alter (fun x => mkBand v (min x)) idx (deref (bands h))) h.

Definition setBandMin (idx : nat) (v : float) (h : Hooks) : Hooks :=
  setBands (alter (fun x => mkBand (label x) (clamp v 0 100)) idx
                  (deref (bands h))) h.

(** The user's actions. *)
Inductive Event :=
  | EScore (key : string) (val : float)
  | EUpload (file : option Parsed)
  | EDownload
  | EReset
  | EToggleSettings
  | EBandLabel (idx : nat) (v : string)
  | EBandMin (idx : nat) (v : float).

(** An event handler runs on the rendered component, then React renders
    again. *)
Definition handle (e : Event) (h : Hooks) : Hooks :=
  match e with
  | EScore key val => handleScore key val h
  | EUpload file => (handleUpload file h).1
  | EDownload => (handleDownloadScores h).1
  | EReset => handleReset h
  | EToggleSettings => setShowSettings (negb (showSettings h)) h
  | EBandLabel idx v => setBandLabel idx v h
  | EBandMin idx v => setBandMin idx v h
  end.

Definition step (h : Hooks) (e : Event) : Hooks := render (handle e h).

(** The component after a sequence of events, from any starting state. *)
Definition run (cfg : Config) (sc : gmap string float) (bs : list Band)
    (trace : list Event) : Hooks :=
  fold_left step trace (mount cfg sc bs).

End App.

(* ------------------------------------------------------------------ *)
(** ** Invariants of the component *)
(* ------------------------------------------------------------------ *)

Module Invariant.
Import App.

(** Every memo cell holds the result for the dependencies it recorded, and
    the allocator is ahead of every identity in use. *)
Record Coherent (h : Hooks) : Prop := {
  coh_weighted :
    (memo_weighted h).(deps) = (addr (config h), addr (scores h)) ->
    (memo_weighted h).(value)
    = computeWeighted (model (deref (config h))) (deref (scores h));
  coh_totalPct :
    (memo_totalPct h).(value) = totalPct_of (memo_totalPct h).(deps);
  coh_finalGrade :
    (memo_finalGrade h).(deps).2 = addr (bands h) ->
    (memo_finalGrade h).(value)
    = gradeFromScore (memo_finalGrade h).(deps).1 (deref (bands h));
  coh_config : (addr (config h) < next_addr h)%nat;
  coh_scores : (addr (scores h) < next_addr h)%nat;
  coh_bands : (addr (bands h) < next_addr h)%nat;
  coh_deps_config : ((memo_weighted h).(deps).1 < next_addr h)%nat;
  coh_deps_scores : ((memo_weighted h).(deps).2 < next_addr h)%nat;
  coh_deps_bands : ((memo_finalGrade h).(deps).2 < next_addr h)%nat
}.

(** The memo cells are those of a render of the current state. *)
Record Rendered (h : Hooks) : Prop := {
  ren_weighted :
    (memo_weighted h).(deps) = (addr (config h), addr (scores h));
  ren_totalPct :
    (memo_totalPct h).(deps) = total (memo_weighted h).(value);
  ren_finalGrade :
    (memo_finalGrade h).(deps) = ((memo_totalPct h).(value), addr (bands h))
}.

End Invariant.

(* ------------------------------------------------------------------ *)
(** ** Sample inputs *)
(* ------------------------------------------------------------------ *)

(** Two dimensions with one indicator each. *)
Definition two_dims : Model :=
  [ ("Risk", [ ("Credit", [ mkItem "PAR" 0.5 None ]) ]);
    ("Governance", [ ("Board", [ mkItem "Diversity" 0.25 None ]) ]) ].

(** A dimension, "Outlook", whose indicators carry no weight. *)
Definition weightless : Model :=
  [ ("Risk", [ ("Credit", [ mkItem "PAR" 0.5 None ]) ]);
    ("Outlook", [ ("Trend", [ mkItem "Momentum" 0 None;
                               mkItem "Sentiment" 0 None ]) ]) ].

(** A single indicator whose weight has more than two decimals as a
    percentage. *)
Definition one_small_weight : Model :=
  [ ("Risk", [ ("Credit", [ mkItem "PAR" 0.00123 None ]) ]) ].

(** A config as [JSON.parse] returns it for a document with a dimension
    named [__proto__] (an own property of the parsed object) beside an
    ordinary one. *)
Definition proto_dimension : Model :=
  [ ("Risk", [ ("Credit", [ mkItem "PAR" 0.25 None ]) ]);
    ("__proto__", [ ("Trend", [ mkItem "Momentum" 0 None ]) ]) ].


(** An uploaded document without [model], and one with a model of a
    single indicator. *)
Definition no_model_document : App.Document :=
  {| App.doc_meta_total_weight := Some 1; App.doc_model := None |}.

Definition one_indicator_document : App.Document :=
  {| App.doc_meta_total_weight := None;
     App.doc_model :=
       Some [ ("Risk", [ ("Credit", [ mkItem "PAR" 1 None ]) ]) ] |}.

(* ================================================================== *)
(** * Properties *)
(* ================================================================== *)

(** Case analysis on membership in a list that is written out. *)
Ltac elem_cases H :=
  repeat (apply elem_of_cons in H as [H | H]; [simplify_eq |]);
  try (by apply elem_of_nil in H).

(** The keys of a model that is written out are pairwise different. *)
Ltac nodup_cases :=
  cbn [map fst];
  repeat (apply NoDup_cons_2; [let H := fresh in intros H; elem_cases H |]);
  apply NoDup_nil_2.

(* ------------------------------------------------------------------ *)
(** ** Binary64 facts: multiplying and dividing by one is exact *)
(* ------------------------------------------------------------------ *)

Section Binary64.

Lemma Prim2SF_one : Prim2SF 1 = S754_finite false 4503599627370496 (-52).
Proof. reflexivity. Qed.

Lemma xorb_plus b : xorb b false = b.
Proof. now destruct b. Qed.

Lemma digits2_xO m :
  Z.pos (digits2_pos m~0) = (Z.pos (digits2_pos m) + 1)%Z.
Proof. simpl. lia. Qed.

Lemma digits2_shift52 m :
  Z.pos (digits2_pos (4503599627370496 * m))
  = (Z.pos (digits2_pos m) + 52)%Z.
Proof. cbv [Pos.mul]. rewrite !digits2_xO. lia. Qed.

(** Aligning a canonical mantissa shifts nothing out ... *)
Lemma shr_fexp_exact m e :
  canonical_mantissa prec emax m e = true ->
  shr_fexp prec emax (Z.pos m) e loc_Exact
  = ({| shr_m := Z.pos m; shr_r := false; shr_s := false |}, e).
Proof.
  intros Hc. apply Z.eqb_eq in Hc.
  unfold shr_fexp. cbn [Zdigits2 shr_record_of_loc].
  rewrite Hc, Z.sub_diag. reflexivity.
Qed.

(** ... also when it arrives shifted left by one bit ... *)
Lemma shr_fexp_shifted1 m e :
  canonical_mantissa prec emax m e = true ->
  shr_fexp prec emax (Z.pos m~0) (e - 1) loc_Exact
  = ({| shr_m := Z.pos m; shr_r := false; shr_s := false |}, e).
Proof.
  intros Hc. apply Z.eqb_eq in Hc.
  unfold shr_fexp. cbn [Zdigits2 shr_record_of_loc]. rewrite digits2_xO.
  replace (Z.pos (digits2_pos m) + 1 + (e - 1))%Z
    with (Z.pos (digits2_pos m) + e)%Z by lia.
  rewrite Hc.
  replace (e - (e - 1))%Z with 1%Z by lia.
  cbv [shr iter_pos shr_1 orb]. f_equal. lia.
Qed.

(** ... or by the 52 bits of the mantissa of [1]. *)
Lemma shr_fexp_shifted52 m e :
  canonical_mantissa prec emax m e = true ->
  shr_fexp prec emax (Z.pos (4503599627370496 * m)) (e + -52) loc_Exact
  = ({| shr_m := Z.pos m; shr_r := false; shr_s := false |}, e).
Proof.
  intros Hc. apply Z.eqb_eq in Hc.
  unfold shr_fexp. cbn [Zdigits2 shr_record_of_loc]. rewrite digits2_shift52.
  replace (Z.pos (digits2_pos m) + 52 + (e + -52))%Z
    with (Z.pos (digits2_pos m) + e)%Z by lia.
  rewrite Hc.
  replace (e - (e + -52))%Z with 52%Z by lia.
  cbv [Pos.mul shr iter_pos shr_1 orb]. f_equal. lia.
Qed.

(** Rounding a mantissa that aligns exactly to a canonical one returns
    that one. *)
Lemma round_aligned sx mx ex m e :
  bounded prec emax m e = true ->
  shr_fexp prec emax mx ex loc_Exact
  = ({| shr_m := Z.pos m; shr_r := false; shr_s := false |}, e) ->
  binary_round_aux prec emax sx mx ex loc_Exact = S754_finite sx m e.
Proof.
  intros Hb Hs. unfold bounded in Hb. apply andb_prop in Hb as [Hc He].
  unfold binary_round_aux. rewrite Hs.
  cbn [shr_m loc_of_shr_record round_nearest_even].
  rewrite (shr_fexp_exact m e Hc). cbn [shr_m]. now rewrite He.
Qed.

Lemma round_exact sx m e :
  bounded prec emax m e = true ->
  binary_round_aux prec emax sx (Z.pos m) e loc_Exact = S754_finite sx m e.
Proof.
  intros Hb. apply round_aligned; [done |].
  apply shr_fexp_exact. unfold bounded in Hb. now apply andb_prop in Hb.
Qed.

Lemma round_shifted1 sx m e :
  bounded prec emax m e = true ->
  binary_round_aux prec emax sx (Z.pos m~0) (e - 1) loc_Exact
  = S754_finite sx m e.
Proof.
  intros Hb. apply round_aligned; [done |].
  apply shr_fexp_shifted1. unfold bounded in Hb. now apply andb_prop in Hb.
Qed.

Lemma round_shifted52 sx m e :
  bounded prec emax m e = true ->
  binary_round_aux prec emax sx (Z.pos (4503599627370496 * m)) (e + -52)
                   loc_Exact
  = S754_finite sx m e.
Proof.
  intros Hb. apply round_aligned; [done |].
  apply shr_fexp_shifted52. unfold bounded in Hb. now apply andb_prop in Hb.
Qed.

Lemma mul_one_r (x : float) : x * 1 = x.
Proof.
  apply Prim2SF_inj. rewrite mul_spec, Prim2SF_one.
  pose proof (Prim2SF_valid x) as Hv.
  destruct (Prim2SF x) as [s | s | | s m e]; cbn [SF64mul SFmul];
    rewrite ?xorb_plus; try reflexivity.
  rewrite Pos.mul_comm. now apply round_shifted52.
Qed.

(** The quotient of a canonical mantissa by the mantissa of [1] is the
    mantissa itself, at its own exponent or doubled one exponent lower. *)
Lemma div_core_one m e :
  bounded prec emax m e = true ->
  SFdiv_core_binary prec emax (Z.pos m) e 4503599627370496 (-52)
    = (Z.pos m, e, loc_Exact) \/
  SFdiv_core_binary prec emax (Z.pos m) e 4503599627370496 (-52)
    = (Z.pos m~0, (e - 1)%Z, loc_Exact).
Proof.
  intros Hb. unfold bounded, canonical_mantissa in Hb.
  apply andb_prop in Hb as [Hc He]. apply Z.eqb_eq in Hc.
  unfold SFdiv_core_binary.
  change (Zdigits2 4503599627370496) with 53%Z.
  cbn [Zdigits2].
  set (d := Z.pos (digits2_pos m)) in *.
  set (e' := Z.min _ _).
  assert (He' : e' = e \/ e' = (e - 1)%Z).
  { subst e'. unfold fexp, emin, prec, emax in *. lia. }
  destruct He' as [-> | ->].
  - left. replace (e - -52 - e)%Z with 52%Z by lia.
    rewrite Z.shiftl_mul_pow2 by lia.
    pose proof (Z_div_mult (Z.pos m) (2 ^ 52) ltac:(lia)) as Hq.
    pose proof (Z_mod_mult (Z.pos m) (2 ^ 52)) as Hr.
    unfold Z.div, Z.modulo in Hq, Hr.
    change (2 ^ 52)%Z with 4503599627370496%Z in *.
    destruct (Z.div_eucl _ _) as [q r]. cbn [fst snd] in Hq, Hr.
    subst q r. reflexivity.
  - right. replace (e - -52 - (e - 1))%Z with 53%Z by lia.
    rewrite Z.shiftl_mul_pow2 by lia.
    replace (Z.pos m * 2 ^ 53)%Z with (Z.pos m~0 * 2 ^ 52)%Z by lia.
    pose proof (Z_div_mult (Z.pos m~0) (2 ^ 52) ltac:(lia)) as Hq.
    pose proof (Z_mod_mult (Z.pos m~0) (2 ^ 52)) as Hr.
    unfold Z.div, Z.modulo in Hq, Hr.
    change (2 ^ 52)%Z with 4503599627370496%Z in *.
    destruct (Z.div_eucl _ _) as [q r]. cbn [fst snd] in Hq, Hr.
    subst q r. reflexivity.
Qed.

Lemma div_one_r (x : float) : x / 1 = x.
Proof.
  apply Prim2SF_inj. rewrite div_spec, Prim2SF_one.
  pose proof (Prim2SF_valid x) as Hv.
  destruct (Prim2SF x) as [s | s | | s m e]; cbn [SF64div SFdiv];
    rewrite ?xorb_plus; try reflexivity.
  cbn [valid_binary] in Hv.
  destruct (div_core_one m e Hv) as [-> | ->].
  - now apply round_exact.
  - now apply round_shifted1.
Qed.

(** Two numbers that [Object.is] tells apart are different. *)
Lemma float_neq (a b : float) : Leibniz.eqb a b = false -> a <> b.
Proof.
  intros Hf Heq. apply Leibniz.eqb_spec in Heq. congruence.
Qed.

End Binary64.

(* ------------------------------------------------------------------ *)
(** ** The number functions on known values *)
(* ------------------------------------------------------------------ *)

(** [clamp] on ratings: in range, below, above, and NaN, which passes
    through [Math.min] and [Math.max]. *)
Example clamp_ratings :
  clamp 3 0 5 = 3 /\ clamp (-1) 0 5 = 0 /\ clamp 6 0 5 = 5 /\
  clamp nan 0 5 = nan /\ clamp neg_zero 0 5 = 0.
Proof. repeat split. Qed.

(** [toFixed(2)] rounds the exact binary value, ties upwards:
    [(0.125).toFixed(2)] is "0.13", [(1.005).toFixed(2)] is "1.00",
    [(8.345).toFixed(2)] is "8.35", [(-1.255).toFixed(2)] is "-1.25". *)
Example toFixed2_values :
  Number_toFixed2 0.125 = 0.13 /\ Number_toFixed2 1.005 = 1 /\
  Number_toFixed2 8.345 = 8.35 /\ Number_toFixed2 (-1.255) = -1.25 /\
  Number_toFixed2 45.000000000000014 = 45 /\
  Number_toFixed2 nan = nan /\ Number_toFixed2 infinity = infinity.
Proof. repeat split. Qed.

(** The default configuration without ratings, and with one rating. *)
Example default_config_totals :
  total (computeWeighted (model DEFAULT_CONFIG) ∅) = 0 /\
  totalPct_of
    (total (computeWeighted (model DEFAULT_CONFIG)
                            {[ "Financial Performance::OSS" := 5 ]}))
  = 6 /\
  gradeFromScore 6 initial_bands = "E".
Proof. repeat split; vm_compute; reflexivity. Qed.

(* ------------------------------------------------------------------ *)
(** ** The loops of [computeWeighted] as sums *)
(* ------------------------------------------------------------------ *)

Section Loops.

Implicit Types (sc : gmap string float) (dim : string) (it : Item).

Lemma item_step_eq dim sc a b t it :
  item_step dim sc (a, b, t) it
  = (a + contribution dim sc it, b + weightOf it,
     t + contribution dim sc it).
Proof. reflexivity. Qed.

(** The inner [forEach] over one array. *)
Lemma arr_loop_sums dim sc (arr : list Item) a b t :
  fold_left (item_step dim sc) arr (a, b, t)
  = (fold_left (fun x it => x + contribution dim sc it) arr a,
     fold_left (fun x it => x + weightOf it) arr b,
     fold_left (fun x it => x + contribution dim sc it) arr t).
Proof.
  revert a b t. induction arr as [| it arr IH]; intros a b t; [done |].
  cbn [fold_left]. rewrite item_step_eq. apply IH.
Qed.

(** The loops over a dimension keep three independent sums. *)
Lemma subs_loop_sums dim sc (subs : Subs) a b t :
  subs_loop dim sc subs (a, b, t)
  = (dimSum_from dim sc subs a, dimWeight_from subs b,
     dimSum_from dim sc subs t).
Proof.
  unfold subs_loop, dimSum_from, dimWeight_from, dimItems.
  revert a b t. induction subs as [| [sub arr] subs IH]; intros a b t;
    [done |].
  cbn [map snd fold_left concat]. rewrite arr_loop_sums, IH.
  now rewrite !fold_left_app.
Qed.

Lemma dim_step_eq sc (acc : Weighted) dim (subs : Subs) :
  dim_step sc acc (dim, subs)
  = {| total := dimSum_from dim sc subs (total acc);
       perDim := setProperty (perDim acc) dim (dimSum_from dim sc subs 0);
       perDimDen := setProperty (perDimDen acc) dim
                                (js_or (dimWeight_from subs 0) 1) |}.
Proof. unfold dim_step. now rewrite subs_loop_sums. Qed.

(** Reading an own property after an assignment. *)
Lemma lookup_setProperty (o : gmap string float) k v j :
  setProperty o k v !! j
  = if decide (k = "__proto__") then o !! j
    else if decide (k = j) then Some v else o !! j.
Proof.
  unfold setProperty. case_decide; [done |]. apply lookup_insert.
Qed.

Lemma lookup_setProperty_ne (o : gmap string float) k v j :
  k <> j -> setProperty o k v !! j = o !! j.
Proof.
  intros Hne. rewrite lookup_setProperty. now repeat case_decide.
Qed.

Lemma lookup_setProperty_eq (o : gmap string float) k v :
  k <> "__proto__" -> setProperty o k v !! k = Some v.
Proof.
  intros Hne. rewrite lookup_setProperty. now repeat case_decide.
Qed.

(** No assignment gives the object an own property [__proto__]. *)
Lemma lookup_setProperty_proto (o : gmap string float) k v :
  setProperty o k v !! "__proto__" = o !! "__proto__".
Proof.
  rewrite lookup_setProperty. repeat case_decide; congruence.
Qed.

(** [total] is the running sum of the contributions of all indicators. *)
Lemma total_fold sc (m : Model) (acc : Weighted) :
  total (fold_left (dim_step sc) m acc)
  = fold_left (fun x e => x + contribution e.1 sc e.2) (allItems m)
              (total acc).
Proof.
  revert acc. induction m as [| [dim subs] m IH]; intros acc; [done |].
  cbn [fold_left]. rewrite IH, dim_step_eq. cbn [total].
  unfold allItems. cbn [flat_map]. rewrite fold_left_app.
  f_equal. unfold dimSum_from. cbn [fst snd].
  generalize (total acc). generalize (dimItems subs).
  intros l. induction l as [| it l IHl]; intros x; [done |].
  cbn [map fold_left]. apply IHl.
Qed.

Lemma computeWeighted_total (m : Model) sc :
  total (computeWeighted m sc) = sumContributions m sc.
Proof. unfold computeWeighted. now rewrite total_fold. Qed.

(** A dimension that is not visited keeps its entries. *)
Lemma perDim_fold_notin sc (m : Model) (acc : Weighted) dim :
  dim ∉ map fst m ->
  perDim (fold_left (dim_step sc) m acc) !! dim = perDim acc !! dim /\
  perDimDen (fold_left (dim_step sc) m acc) !! dim = perDimDen acc !! dim.
Proof.
  revert acc. induction m as [| [d subs] m IH]; intros acc Hnot; [done |].
  cbn [map fst] in Hnot. apply not_elem_of_cons in Hnot as [Hne Hnot].
  cbn [fold_left]. destruct (IH (dim_step sc acc (d, subs)) Hnot) as [-> ->].
  rewrite dim_step_eq. cbn [perDim perDimDen].
  now rewrite !lookup_setProperty_ne.
Qed.

(** The results never have an own property [__proto__]. *)
Lemma perDim_fold_proto sc (m : Model) (acc : Weighted) :
  perDim (fold_left (dim_step sc) m acc) !! "__proto__"
    = perDim acc !! "__proto__" /\
  perDimDen (fold_left (dim_step sc) m acc) !! "__proto__"
    = perDimDen acc !! "__proto__".
Proof.
  revert acc. induction m as [| [d subs] m IH]; intros acc; [done |].
  cbn [fold_left]. destruct (IH (dim_step sc acc (d, subs))) as [-> ->].
  rewrite dim_step_eq. cbn [perDim perDimDen].
  now rewrite !lookup_setProperty_proto.
Qed.

(** The entries [computeWeighted] reports for a dimension of a model
    (whose keys, as those of any object, are pairwise different), unless it
    is named [__proto__]. *)
Lemma perDim_fold sc (m : Model) (acc : Weighted) dim (subs : Subs) :
  NoDup (map fst m) -> (dim, subs) ∈ m -> dim <> "__proto__" ->
  perDim (fold_left (dim_step sc) m acc) !! dim
    = Some (dimSum_from dim sc subs 0) /\
  perDimDen (fold_left (dim_step sc) m acc) !! dim
    = Some (js_or (dimWeight_from subs 0) 1).
Proof.
  revert acc. induction m as [| [d s] m IH]; intros acc Hnd Hin Hproto.
  - by apply elem_of_nil in Hin.
  - cbn [map fst] in Hnd. apply NoDup_cons in Hnd as [Hd Hnd].
    cbn [fold_left]. apply elem_of_cons in Hin as [Heq | Hin].
    + injection Heq as <- <-.
      destruct (perDim_fold_notin sc m (dim_step sc acc (dim, subs)) dim Hd)
        as [-> ->].
      rewrite dim_step_eq. cbn [perDim perDimDen].
      now rewrite !lookup_setProperty_eq.
    + now apply IH.
Qed.

End Loops.

(* ------------------------------------------------------------------ *)
(** ** [gradeFromScore] *)
(* ------------------------------------------------------------------ *)

Lemma scan_find pct (bands : list Band) :
  gradeFromScore_scan pct bands
  = label <$> List.find (fun b => min b <=? pct) bands.
Proof.
  induction bands as [| b bands IH]; [done |].
  cbn [gradeFromScore_scan List.find]. now destruct (min b <=? pct).
Qed.

(** C4. For every band list and percentage, [gradeFromScore] scans the
    bands in the order given and returns the label of the first band whose
    [min] is at most the percentage; with the bands
    [{A,85},{B,70},{C,55},{D,40},{E,0}] the scores 85.0, 84.9, 0 and 100
    yield "A", "B", "E" and "A". *)
Theorem gradeFromScore_first_match :
  (forall (pct : float) (bands : list Band) (b : Band),
      List.find (fun x => min x <=? pct) bands = Some b ->
      gradeFromScore pct bands = label b) /\
  gradeFromScore 85.0 initial_bands = "A" /\
  gradeFromScore 84.9 initial_bands = "B" /\
  gradeFromScore 0 initial_bands = "E" /\
  gradeFromScore 100 initial_bands = "A".
Proof.
  split; [| repeat split; reflexivity].
  intros pct bands b Hfind. unfold gradeFromScore.
  now rewrite scan_find, Hfind.
Qed.

Lemma gradeFromScore_first_match_witness :
  List.find (fun x => min x <=? 60) initial_bands = Some (mkBand "C" 55) /\
  gradeFromScore 60 initial_bands = "C".
Proof.
  split; [reflexivity |].
  apply (proj1 gradeFromScore_first_match 60 initial_bands (mkBand "C" 55)).
  reflexivity.
Defined.

(** C9. When no band's [min] is at most the percentage, [gradeFromScore]
    returns the label of the last band of a non-empty list, and "N/A" on an
    empty list. *)
Theorem gradeFromScore_fallback :
  (forall (pct : float) (bands : list Band) (b : Band),
      last bands = Some b ->
      (forall x, x ∈ bands -> (min x <=? pct) = false) ->
      gradeFromScore pct bands = label b) /\
  (forall pct : float, gradeFromScore pct [] = "N/A").
Proof.
  split; [| reflexivity].
  intros pct bands b Hlast Hnone. unfold gradeFromScore.
  assert (Hscan : gradeFromScore_scan pct bands = None).
  { clear Hlast. induction bands as [| x bands IH]; [done |].
    cbn [gradeFromScore_scan]. rewrite (Hnone x) by (apply elem_of_cons; now left).
    apply IH. intros y Hy. apply Hnone. apply elem_of_cons; now right. }
  now rewrite Hscan, Hlast.
Qed.

Lemma gradeFromScore_fallback_witness :
  gradeFromScore 30 [mkBand "A" 85; mkBand "B" 70; mkBand "C" 55] = "C".
Proof.
  apply (proj1 gradeFromScore_fallback 30
           [mkBand "A" 85; mkBand "B" 70; mkBand "C" 55] (mkBand "C" 55)).
  - reflexivity.
  - intros x Hx.
    repeat (apply elem_of_cons in Hx as [-> | Hx]; [reflexivity |]).
    by apply elem_of_nil in Hx.
Defined.

(* ------------------------------------------------------------------ *)
(** ** [computeWeighted] and the ratings it reads *)
(* ------------------------------------------------------------------ *)

Section Ratings.

Implicit Types (sc : gmap string float) (dim : string) (it : Item).

Lemma fold_left_ext_in {A B : Type} (f g : A -> B -> A) (l : list B) a :
  (forall x y, y ∈ l -> f x y = g x y) ->
  fold_left f l a = fold_left g l a.
Proof.
  revert a. induction l as [| y l IH]; intros a Hfg; [done |].
  cbn [fold_left]. rewrite Hfg by (apply elem_of_cons; now left).
  apply IH. intros x z Hz. apply Hfg. apply elem_of_cons. now right.
Qed.

Lemma elem_of_dimItems it (subs : Subs) :
  it ∈ dimItems subs <-> exists sub arr, (sub, arr) ∈ subs /\ it ∈ arr.
Proof.
  unfold dimItems. induction subs as [| [sub arr] subs IH]; cbn [map concat snd].
  - split; [intros H; by apply elem_of_nil in H |].
    intros (? & ? & H & _). by apply elem_of_nil in H.
  - rewrite elem_of_app, IH. split.
    + intros [H | (s & a & Hin & H)].
      * exists sub, arr. split; [apply elem_of_cons; now left | done].
      * exists s, a. split; [apply elem_of_cons; now right | done].
    + intros (s & a & Hin & H). apply elem_of_cons in Hin as [Heq | Hin].
      * injection Heq as -> ->. now left.
      * right. now exists s, a.
Qed.

Lemma elem_of_allItems dim it (m : Model) :
  (dim, it) ∈ allItems m <->
  exists subs, (dim, subs) ∈ m /\ it ∈ dimItems subs.
Proof.
  unfold allItems. induction m as [| [d s] m IH]; cbn [flat_map fst snd].
  - split; [intros H; by apply elem_of_nil in H |].
    intros (? & H & _). by apply elem_of_nil in H.
  - rewrite elem_of_app, IH, list_elem_of_fmap. split.
    + intros [(y & Heq & Hy) | (subs & Hin & H)].
      * injection Heq as -> ->. exists s.
        split; [apply elem_of_cons; now left | done].
      * exists subs. split; [apply elem_of_cons; now right | done].
    + intros (subs & Hin & H). apply elem_of_cons in Hin as [Heq | Hin].
      * injection Heq as -> ->. left. now exists it.
      * right. now exists subs.
Qed.

(** The ratings map is read only through [ratingOf], at the keys of the
    indicators. *)
Lemma contribution_ext dim sc1 sc2 it :
  ratingOf sc1 (makeKey dim it) = ratingOf sc2 (makeKey dim it) ->
  contribution dim sc1 it = contribution dim sc2 it.
Proof. unfold contribution. now intros ->. Qed.

Lemma dimSum_from_ext dim sc1 sc2 (subs : Subs) a :
  (forall it, it ∈ dimItems subs ->
     ratingOf sc1 (makeKey dim it) = ratingOf sc2 (makeKey dim it)) ->
  dimSum_from dim sc1 subs a = dimSum_from dim sc2 subs a.
Proof.
  intros H. unfold dimSum_from. apply fold_left_ext_in.
  intros x it Hit. f_equal. apply contribution_ext, H, Hit.
Qed.

Lemma computeWeighted_ext (m : Model) sc1 sc2 :
  (forall key, ratingOf sc1 key = ratingOf sc2 key) ->
  computeWeighted m sc1 = computeWeighted m sc2.
Proof.
  intros H. unfold computeWeighted. apply fold_left_ext_in.
  intros acc [dim subs] _. rewrite !dim_step_eq.
  now rewrite !(dimSum_from_ext dim sc1 sc2) by (intros; apply H).
Qed.

Lemma ratingOf_insert sc key v k :
  ratingOf (<[key := v]> sc) k
  = if decide (key = k) then clamp v 0 5 else ratingOf sc k.
Proof.
  unfold ratingOf. rewrite lookup_insert. now case_decide.
Qed.

End Ratings.

(** C7. A rating of -1 gives exactly the result a rating of 0 gives, and a
    rating of 6 the result of 5: [computeWeighted] is a total function
    that clamps what it reads. *)
Theorem out_of_range_rating_clamped :
  forall (m : Model) (sc : gmap string float) (key : string),
    computeWeighted m (<[key := -1]> sc) = computeWeighted m (<[key := 0]> sc) /\
    computeWeighted m (<[key := 6]> sc) = computeWeighted m (<[key := 5]> sc).
Proof.
  intros m sc key.
  split; apply computeWeighted_ext; intros k; rewrite !ratingOf_insert;
    case_decide; reflexivity.
Qed.

Lemma perDim_fold_agree dim (m : Model) sc1 sc2 (acc1 acc2 : Weighted) :
  agreeOn dim m sc1 sc2 ->
  perDim acc1 !! dim = perDim acc2 !! dim ->
  perDimDen acc1 !! dim = perDimDen acc2 !! dim ->
  perDim (fold_left (dim_step sc1) m acc1) !! dim
    = perDim (fold_left (dim_step sc2) m acc2) !! dim /\
  perDimDen (fold_left (dim_step sc1) m acc1) !! dim
    = perDimDen (fold_left (dim_step sc2) m acc2) !! dim.
Proof.
  revert acc1 acc2. induction m as [| [d subs] m IH];
    intros acc1 acc2 Hag H1 H2; [done |].
  cbn [fold_left]. apply IH.
  - intros s sub arr it Hs. apply Hag. apply elem_of_cons. now right.
  - rewrite !dim_step_eq. cbn [perDim]. rewrite !lookup_setProperty.
    case_decide; [done |]. case_decide as Hd; [| done]. subst d. f_equal.
    apply dimSum_from_ext. intros it Hit.
    apply elem_of_dimItems in Hit as (sub & arr & Hsub & Hit).
    unfold ratingOf. f_equal. f_equal.
    apply (Hag subs sub arr it); [apply elem_of_cons; now left | done..].
  - rewrite !dim_step_eq. cbn [perDimDen]. rewrite !lookup_setProperty.
    now repeat case_decide.
Qed.

(** C5. For two ratings maps that agree on all indicators of a dimension,
    [computeWeighted] reports the same sum and the same weight denominator
    for that dimension: the ratings of other dimensions do not reach its
    percentage. *)
Theorem perDim_independent_of_other_ratings :
  forall (m : Model) (sc1 sc2 : gmap string float) (dim : string),
    agreeOn dim m sc1 sc2 ->
    perDim (computeWeighted m sc1) !! dim
      = perDim (computeWeighted m sc2) !! dim /\
    perDimDen (computeWeighted m sc1) !! dim
      = perDimDen (computeWeighted m sc2) !! dim /\
    radarScore (computeWeighted m sc1) dim
      = radarScore (computeWeighted m sc2) dim.
Proof.
  intros m sc1 sc2 dim Hag. unfold radarScore, computeWeighted.
  destruct (perDim_fold_agree dim m sc1 sc2
              {| total := 0; perDim := ∅; perDimDen := ∅ |}
              {| total := 0; perDim := ∅; perDimDen := ∅ |} Hag eq_refl eq_refl)
    as [-> ->].
  done.
Qed.

Lemma perDim_independent_of_other_ratings_witness :
  perDim (computeWeighted two_dims {[ "Risk::PAR" := 3; "Governance::Diversity" := 1 ]})
    !! "Risk"
  = perDim (computeWeighted two_dims {[ "Risk::PAR" := 3; "Governance::Diversity" := 4 ]})
    !! "Risk".
Proof.
  apply (perDim_independent_of_other_ratings two_dims
           {[ "Risk::PAR" := 3; "Governance::Diversity" := 1 ]}
           {[ "Risk::PAR" := 3; "Governance::Diversity" := 4 ]} "Risk").
  intros subs sub arr it Hm Hs Hi.
  elem_cases Hm. elem_cases Hs. elem_cases Hi. reflexivity.
Defined.

(* ------------------------------------------------------------------ *)
(** ** A dimension without weight *)
(* ------------------------------------------------------------------ *)

(** X20. For a dimension, not named [__proto__], whose indicator weights
    sum to zero, [computeWeighted] reports the denominator 1, so that the
    percentage of the dimension is computed by a division by 1 and is the
    dimension's raw sum of contributions (as a percentage, clamped).  The
    dimension names of a model are the keys of an object, hence pairwise
    different. *)
Theorem zero_weight_dimension_denominator :
  forall (m : Model) (sc : gmap string float) (dim : string) (subs : Subs),
    NoDup (map fst m) ->
    (dim, subs) ∈ m ->
    dim <> "__proto__" ->
    is_zero (dimWeight_from subs 0) = true ->
    perDimDen (computeWeighted m sc) !! dim = Some 1 /\
    perDim (computeWeighted m sc) !! dim = Some (dimSum_from dim sc subs 0) /\
    radarScore (computeWeighted m sc) dim
      = clamp (dimSum_from dim sc subs 0 / 1 * 100) 0 100 /\
    radarScore (computeWeighted m sc) dim
      = clamp (dimSum_from dim sc subs 0 * 100) 0 100.
Proof.
  intros m sc dim subs Hnd Hin Hproto Hzero.
  destruct (perDim_fold sc m {| total := 0; perDim := ∅; perDimDen := ∅ |}
              dim subs Hnd Hin Hproto) as [Hsum Hden].
  fold (computeWeighted m sc) in Hsum, Hden.
  assert (Hone : js_or (dimWeight_from subs 0) 1 = 1).
  { unfold js_or, truthy. now rewrite Hzero. }
  rewrite Hone in Hden. unfold radarScore. rewrite Hsum, Hden.
  change (js_or 1 1) with 1. cbn [default from_option].
  repeat split. now rewrite div_one_r.
Qed.

Lemma zero_weight_dimension_denominator_witness :
  perDimDen (computeWeighted weightless {[ "Outlook::Momentum" := 4 ]})
    !! "Outlook" = Some 1 /\
  perDim (computeWeighted weightless {[ "Outlook::Momentum" := 4 ]})
    !! "Outlook"
    = Some (dimSum_from "Outlook" {[ "Outlook::Momentum" := 4 ]}
              [ ("Trend", [ mkItem "Momentum" 0 None;
                            mkItem "Sentiment" 0 None ]) ] 0) /\
  radarScore (computeWeighted weightless {[ "Outlook::Momentum" := 4 ]})
             "Outlook"
    = clamp (dimSum_from "Outlook" {[ "Outlook::Momentum" := 4 ]}
               [ ("Trend", [ mkItem "Momentum" 0 None;
                             mkItem "Sentiment" 0 None ]) ] 0 / 1 * 100)
            0 100 /\
  radarScore (computeWeighted weightless {[ "Outlook::Momentum" := 4 ]})
             "Outlook"
    = clamp (dimSum_from "Outlook" {[ "Outlook::Momentum" := 4 ]}
               [ ("Trend", [ mkItem "Momentum" 0 None;
                             mkItem "Sentiment" 0 None ]) ] 0 * 100)
            0 100.
Proof.
  apply (zero_weight_dimension_denominator weightless
           {[ "Outlook::Momentum" := 4 ]} "Outlook"
           [ ("Trend", [ mkItem "Momentum" 0 None;
                         mkItem "Sentiment" 0 None ]) ]).
  - nodup_cases.
  - apply elem_of_cons. right. apply elem_of_cons. now left.
  - discriminate.
  - reflexivity.
Defined.

(** C8. The code at an input where it departs from the claim: a config
    with a dimension named [__proto__] (which a parsed JSON document can
    have) whose weights sum to zero.  The assignments
    [perDim[dim] = dimSum] and [perDimDen[dim] = dimW || 1] store nothing
    under that name, so that no denominator is reported, where the claim
    has the denominator 1, and the percentage is NaN, where the claim has
    the raw sum 0 of the dimension. *)
Lemma proto_dimension_has_no_denominator :
  NoDup (map fst proto_dimension) /\
  ("__proto__", [ ("Trend", [ mkItem "Momentum" 0 None ]) ])
    ∈ proto_dimension /\
  is_zero (dimWeight_from [ ("Trend", [ mkItem "Momentum" 0 None ]) ] 0)
    = true /\
  perDimDen (computeWeighted proto_dimension ∅) !! "__proto__" = None /\
  perDimDen (computeWeighted proto_dimension ∅) !! "__proto__" <> Some 1 /\
  perDim (computeWeighted proto_dimension ∅) !! "__proto__" = None /\
  radarScore (computeWeighted proto_dimension ∅) "__proto__" = nan /\
  clamp (dimSum_from "__proto__" ∅
           [ ("Trend", [ mkItem "Momentum" 0 None ]) ] 0 * 100) 0 100 = 0 /\
  radarScore (computeWeighted proto_dimension ∅) "__proto__"
    <> clamp (dimSum_from "__proto__" ∅
                [ ("Trend", [ mkItem "Momentum" 0 None ]) ] 0 * 100) 0 100.
Proof.
  split; [nodup_cases |].
  split; [apply elem_of_cons; right; apply elem_of_cons; now left |].
  split; [reflexivity |].
  destruct (perDim_fold_proto ∅ proto_dimension
              {| total := 0; perDim := ∅; perDimDen := ∅ |}) as [Hp Hd].
  fold (computeWeighted proto_dimension ∅) in Hp, Hd.
  cbn [perDim perDimDen] in Hp, Hd. rewrite lookup_empty in Hp, Hd.
  split; [done |]. split; [now rewrite Hd |]. split; [done |].
  assert (Hr : radarScore (computeWeighted proto_dimension ∅) "__proto__"
               = nan).
  { unfold radarScore. rewrite Hp, Hd. reflexivity. }
  split; [done |]. split; [reflexivity |].
  rewrite Hr. apply float_neq. reflexivity.
Qed.

(* ------------------------------------------------------------------ *)
(** ** All ratings at 5 *)
(* ------------------------------------------------------------------ *)

Lemma contribution_five dim (sc : gmap string float) it :
  sc !! makeKey dim it = Some 5 -> contribution dim sc it = weightOf it.
Proof.
  intros H. unfold contribution, ratingOf. rewrite H.
  change (clamp (default 0 (Some 5)) 0 5 / 5) with 1. apply mul_one_r.
Qed.

Lemma rateAll_lookup (m : Model) (r : float) dim it :
  (dim, it) ∈ allItems m -> rateAll m r !! makeKey dim it = Some r.
Proof.
  intros Hin. unfold rateAll. apply elem_of_list_to_map_1'.
  - intros y Hy. apply list_elem_of_fmap in Hy as (e & Heq & _).
    now injection Heq.
  - apply list_elem_of_fmap. now exists (dim, it).
Qed.

(** C1 (amended). When every indicator is rated 5, [total] is the sum of
    all indicator weights of the config, and [totalPct] is that sum times
    100, rounded to two decimals by [toFixed(2)] and then clamped to
    [0, 100]. *)
Theorem all_fives_total :
  forall (m : Model) (sc : gmap string float),
    (forall dim it, (dim, it) ∈ allItems m -> sc !! makeKey dim it = Some 5) ->
    total (computeWeighted m sc) = sumWeights m /\
    totalPct_of (total (computeWeighted m sc))
      = clamp (Number_toFixed2 (sumWeights m * 100)) 0 100.
Proof.
  intros m sc Hall.
  assert (Htot : total (computeWeighted m sc) = sumWeights m).
  { rewrite computeWeighted_total. unfold sumContributions, sumWeights.
    apply fold_left_ext_in. intros x [dim it] Hin. cbn [fst snd].
    f_equal. now apply contribution_five, Hall. }
  split; [done |]. unfold totalPct_of. now rewrite Htot.
Qed.

Lemma all_fives_total_witness :
  total (computeWeighted (model DEFAULT_CONFIG)
                         (rateAll (model DEFAULT_CONFIG) 5))
  = sumWeights (model DEFAULT_CONFIG).
Proof.
  apply (all_fives_total (model DEFAULT_CONFIG)
                         (rateAll (model DEFAULT_CONFIG) 5)).
  intros dim it Hin. now apply rateAll_lookup.
Defined.

(** C1 as stated fails: for a config with the single weight 0.00123 rated
    5, [total] is 0.00123, the sum of the weights, and [totalPct] is 0.12,
    not the unrounded [clamp(100 * 0.00123, 0, 100)], which is 0.123. *)
Lemma all_fives_totalPct_is_rounded :
  (forall dim it,
      (dim, it) ∈ allItems one_small_weight ->
      ({[ "Risk::PAR" := 5 ]} : gmap string float) !! makeKey dim it = Some 5) /\
  total (computeWeighted one_small_weight {[ "Risk::PAR" := 5 ]})
    = sumWeights one_small_weight /\
  sumWeights one_small_weight = 0.00123 /\
  totalPct_of (total (computeWeighted one_small_weight {[ "Risk::PAR" := 5 ]}))
    = 0.12 /\
  clamp (100 * sumWeights one_small_weight) 0 100 = 0.123 /\
  totalPct_of (total (computeWeighted one_small_weight {[ "Risk::PAR" := 5 ]}))
    <> clamp (100 * sumWeights one_small_weight) 0 100.
Proof.
  split; [intros dim it Hin; elem_cases Hin; reflexivity |].
  repeat (split; [vm_compute; reflexivity |]).
  apply float_neq. vm_compute. reflexivity.
Qed.

(** The same on the default configuration: with every rating at 5,
    [total] is the binary64 sum 0.45000000000000012 of the weights,
    [totalPct] is 45 and the unrounded product is 45.000000000000014. *)
Example default_config_all_fives :
  total (computeWeighted (model DEFAULT_CONFIG)
                         (rateAll (model DEFAULT_CONFIG) 5))
    = 0.45000000000000012 /\
  totalPct_of (total (computeWeighted (model DEFAULT_CONFIG)
                                      (rateAll (model DEFAULT_CONFIG) 5)))
    = 45 /\
  clamp (100 * sumWeights (model DEFAULT_CONFIG)) 0 100
    = 45.000000000000014.
Proof. repeat split; vm_compute; reflexivity. Qed.

(* ------------------------------------------------------------------ *)
(** ** Rating keys *)
(* ------------------------------------------------------------------ *)



(* ------------------------------------------------------------------ *)
(** ** The component: memoised values, upload and export *)
(* ------------------------------------------------------------------ *)

Section Component.

Import App Invariant.

Lemma same_number_eq a b : same_number a b = true -> a = b.
Proof. apply Leibniz.eqb_spec. Qed.

Lemma same_object_eq a b : same_object a b = true -> a = b.
Proof. apply Nat.eqb_eq. Qed.

(** [useMemo] returns what a fresh computation returns, provided the
    stored value is right for the stored dependencies. *)
Lemma useMemo_fresh {D V : Type} (same : D -> D -> bool) (cell : Memo D V)
    (compute : unit -> V) (d : D) :
  (forall a b, same a b = true -> a = b) ->
  (deps cell = d -> value cell = compute tt) ->
  useMemo same cell compute d = mkMemo d (compute tt).
Proof.
  intros Hsame Hcell. unfold useMemo.
  destruct (same (deps cell) d) eqn:E; [| done].
  apply Hsame in E. destruct cell as [d0 v0]. cbn in *. subst d0.
  now rewrite Hcell.
Qed.

Lemma render_eq (h : Hooks) :
  Coherent h ->
  render h
  = let w := computeWeighted (model (deref (config h))) (deref (scores h)) in
    let pct := totalPct_of (total w) in
    {| config := config h; scores := scores h; bands := bands h;
       showSettings := showSettings h;
       memo_weighted := mkMemo (addr (config h), addr (scores h)) w;
       memo_totalPct := mkMemo (total w) pct;
       memo_finalGrade :=
         mkMemo (pct, addr (bands h)) (gradeFromScore pct (deref (bands h)));
       next_addr := next_addr h |}.
Proof.
  intros [Hw Ht Hg _ _ _ _ _ _]. unfold render.
  rewrite (useMemo_fresh _ (memo_weighted h)); cycle 1.
  { intros [a1 a2] [b1 b2] Hab. apply andb_prop in Hab as [H1 H2].
    cbn in H1, H2. apply same_object_eq in H1, H2. now subst. }
  { exact Hw. }
  cbn [value].
  rewrite (useMemo_fresh _ (memo_totalPct h)); cycle 1.
  { apply same_number_eq. }
  { intros Hd. now rewrite Ht, Hd. }
  cbn [value].
  rewrite (useMemo_fresh _ (memo_finalGrade h)); cycle 1.
  { intros [a1 a2] [b1 b2] Hab. apply andb_prop in Hab as [H1 H2].
    cbn in H1, H2. apply same_number_eq in H1.
    apply same_object_eq in H2. now subst. }
  { intros Hd. rewrite Hg by now rewrite Hd. now rewrite Hd. }
  reflexivity.
Qed.

Lemma render_coherent (h : Hooks) :
  Coherent h -> Coherent (render h) /\ Rendered (render h).
Proof.
  intros Hc. rewrite (render_eq h Hc). destruct Hc.
  split; constructor; cbn; done.
Qed.

(** A render of a rendered component changes nothing. *)
Lemma render_rendered (h : Hooks) :
  Coherent h -> Rendered h -> render h = h.
Proof.
  intros Hc [Hw Ht Hg]. rewrite (render_eq h Hc).
  destruct Hc as [Cw Ct Cg _ _ _ _ _ _]. specialize (Cw Hw).
  destruct h as [c s b sh [dw vw] [dt vt] [dg vg] n]. cbn in *.
  subst. cbn in *. rewrite Cg by done. done.
Qed.

Lemma mount_coherent cfg sc bs :
  Coherent (mount cfg sc bs) /\ Rendered (mount cfg sc bs).
Proof. split; constructor; cbn; intros; (done || lia). Qed.

Lemma setScores_coherent sc (h : Hooks) :
  Coherent h -> Coherent (setScores sc h).
Proof.
  intros []. constructor; cbn in *; try lia; try done.
  intros Hd. rewrite Hd in *. cbn in *. lia.
Qed.

Lemma setConfig_coherent c (h : Hooks) :
  Coherent h -> Coherent (setConfig c h).
Proof.
  intros []. constructor; cbn in *; try lia; try done.
  intros Hd. rewrite Hd in *. cbn in *. lia.
Qed.

Lemma setBands_coherent bs (h : Hooks) :
  Coherent h -> Coherent (setBands bs h).
Proof.
  intros []. constructor; cbn in *; try lia; done.
Qed.

Lemma handle_coherent e (h : Hooks) :
  Coherent h -> Coherent (handle e h).
Proof.
  intros Hc. destruct e as [key val | [[msg | json] |] | | | | idx v | idx v];
    cbn [handle handleUpload handleDownloadScores fst]; try done.
  - now apply setScores_coherent.
  - destruct (doc_model json); [| done].
    now apply setScores_coherent, setConfig_coherent.
  - now apply setScores_coherent.
  - destruct Hc. now constructor.
  - now apply setBands_coherent.
  - now apply setBands_coherent.
Qed.

Lemma run_coherent cfg sc bs trace :
  Coherent (run cfg sc bs trace) /\ Rendered (run cfg sc bs trace).
Proof.
  unfold run. generalize (mount_coherent cfg sc bs).
  generalize (mount cfg sc bs). induction trace as [| e trace IH];
    intros h [Hc Hr]; [done |].
  cbn [fold_left]. apply IH. unfold step.
  now apply render_coherent, handle_coherent.
Qed.

End Component.

(** C2. In every state the component reaches, from any starting config,
    ratings and bands and through any sequence of user actions, the
    exported snapshot holds the current ratings together with the
    [totalPct] and [finalGrade] that a fresh computation ([computeWeighted],
    then the [totalPct] derivation, then [gradeFromScore]) gives for the
    current config, ratings and bands; exporting leaves the component as it
    was. *)
Theorem export_matches_fresh_computation :
  forall (cfg : Config) (sc : gmap string float) (bs : list Band)
         (trace : list App.Event),
    let h := App.run cfg sc bs trace in
    let pct :=
      totalPct_of
        (total (computeWeighted (model (App.deref (App.config h)))
                                (App.deref (App.scores h)))) in
    (App.handleDownloadScores h).2
      = {| App.snap_scores := App.deref (App.scores h);
           App.snap_totalPct := pct;
           App.snap_finalGrade := gradeFromScore pct (App.deref (App.bands h)) |} /\
    (App.handleDownloadScores h).1 = h /\
    App.step h App.EDownload = h /\
    App.deref (App.config (App.run cfg sc bs [])) = cfg /\
    App.deref (App.scores (App.run cfg sc bs [])) = sc /\
    App.deref (App.bands (App.run cfg sc bs [])) = bs.
Proof.
  intros cfg sc bs trace h pct.
  destruct (run_coherent cfg sc bs trace) as [Hc Hr]. fold h in Hc, Hr.
  split; [| split; [done | split; [| done]]].
  - unfold App.handleDownloadScores, App.totalPct, App.finalGrade. cbn [snd].
    destruct Hr as [Hw Ht Hg]. destruct Hc as [Cw Ct Cg _ _ _ _ _ _].
    specialize (Cw Hw). rewrite Hg in Cg. cbn [fst snd] in Cg.
    rewrite Cg by done. rewrite Ct, Ht, Cw. done.
  - unfold App.step. cbn [App.handle App.handleDownloadScores fst].
    now apply render_rendered.
Qed.

(** C3. Config replacement is all or nothing.  An upload that cannot be
    read or parsed, or whose document has no [model], is reported through
    [alert] and leaves the component, its config and its ratings, as it
    was; any other document replaces the config as a whole (and empties
    the ratings) without a report. *)
Theorem upload_replaces_or_rejects :
  forall h : App.Hooks,
    (forall message,
        App.handleUpload (Some (App.Threw message)) h
          = (h, Some ("Couldn't load JSON: " +:+ message)) /\
        App.config (App.step h (App.EUpload (Some (App.Threw message))))
          = App.config h /\
        App.scores (App.step h (App.EUpload (Some (App.Threw message))))
          = App.scores h) /\
    (forall json,
        App.doc_model json = None ->
        App.handleUpload (Some (App.Returned json)) h
          = (h, Some "Couldn't load JSON: Invalid config: missing 'model'") /\
        App.config (App.step h (App.EUpload (Some (App.Returned json))))
          = App.config h /\
        App.scores (App.step h (App.EUpload (Some (App.Returned json))))
          = App.scores h) /\
    (forall json m,
        App.doc_model json = Some m ->
        exists h',
          App.handleUpload (Some (App.Returned json)) h = (h', None) /\
          App.deref (App.config h')
            = mkConfig (App.doc_meta_total_weight json) m /\
          App.deref (App.scores h') = ∅ /\
          App.bands h' = App.bands h).
Proof.
  intros h. split; [| split].
  - intros message. done.
  - intros json Hnone. unfold App.step.
    cbn [App.handle App.handleUpload]. now rewrite Hnone.
  - intros json m Hsome. cbn [App.handleUpload]. rewrite Hsome.
    eexists. split; [reflexivity |]. done.
Qed.

Lemma upload_replaces_or_rejects_witness :
  App.handleUpload (Some (App.Returned no_model_document)) App.initial
  = (App.initial,
     Some "Couldn't load JSON: Invalid config: missing 'model'").
Proof.
  apply (proj1 (proj2 (upload_replaces_or_rejects App.initial))
           no_model_document).
  reflexivity.
Defined.

(** C6. After a document with a [model] has been uploaded, the ratings map
    is empty and every indicator of the new config shows, and is scored
    with, the rating 0. *)
Theorem upload_clears_ratings :
  forall (h : App.Hooks) (json : App.Document) (m : Model),
    App.doc_model json = Some m ->
    let h' := App.step h (App.EUpload (Some (App.Returned json))) in
    App.deref (App.scores (App.handleUpload (Some (App.Returned json)) h).1)
      = ∅ /\
    App.deref (App.scores h') = ∅ /\
    model (App.deref (App.config h')) = m /\
    forall dim it,
      (dim, it) ∈ allItems m ->
      App.ratingShown h' (makeKey dim it) = 0 /\
      ratingOf (App.deref (App.scores h')) (makeKey dim it) = 0.
Proof.
  intros h json m Hsome h'. subst h'. unfold App.step.
  cbn [App.handle App.handleUpload]. rewrite Hsome. cbn.
  repeat split.
Qed.

Lemma upload_clears_ratings_witness :
  App.deref
    (App.scores
       (App.step (App.handleScore "Financial Performance::RoA" 4 App.initial)
                 (App.EUpload (Some (App.Returned one_indicator_document)))))
  = ∅.
Proof.
  apply (upload_clears_ratings
           (App.handleScore "Financial Performance::RoA" 4 App.initial)
           one_indicator_document
           [ ("Risk", [ ("Credit", [ mkItem "PAR" 1 None ]) ]) ]).
  reflexivity.
Defined.

(* ================================================================== *)
(** * Further properties of the code *)
(* ================================================================== *)

(* ------------------------------------------------------------------ *)
(** ** Binary64 facts: order, zeros and NaN *)
(* ------------------------------------------------------------------ *)

Section Binary64Order.

Lemma SFcompare_refl x : x <> S754_nan -> SFcompare x x = Some Eq.
Proof.
  destruct x as [s | s | | s m e]; intros H; try congruence; cbn.
  - reflexivity.
  - now destruct s.
  - rewrite Z.compare_refl, Pos.compare_cont_refl. now destruct s.
Qed.

Lemma is_nan_spec x : is_nan x = true <-> Prim2SF x = S754_nan.
Proof.
  unfold is_nan. rewrite FloatAxioms.eqb_spec. unfold SFeqb. split.
  - intros H. destruct (Prim2SF x) eqn:E; try reflexivity;
      rewrite SFcompare_refl in H by congruence; discriminate.
  - now intros ->.
Qed.

Lemma is_nan_false x : is_nan x = false <-> Prim2SF x <> S754_nan.
Proof. rewrite <- is_nan_spec. now destruct (is_nan x). Qed.

Lemma is_nan_eq x : is_nan x = true -> x = nan.
Proof.
  intros H. apply is_nan_spec in H. apply Prim2SF_inj. now rewrite H.
Qed.

Lemma ltb_leb x y : (x <? y) = true -> (x <=? y) = true.
Proof.
  rewrite FloatAxioms.ltb_spec, FloatAxioms.leb_spec. unfold SFltb, SFleb.
  now destruct (SFcompare _ _) as [[]|].
Qed.

Lemma ltb_not_nan x y :
  (x <? y) = true -> is_nan x = false /\ is_nan y = false.
Proof.
  rewrite FloatAxioms.ltb_spec, !is_nan_false. unfold SFltb.
  destruct (Prim2SF x), (Prim2SF y); cbn; try discriminate; split; congruence.
Qed.

Lemma leb_not_nan x y :
  (x <=? y) = true -> is_nan x = false /\ is_nan y = false.
Proof.
  rewrite FloatAxioms.leb_spec, !is_nan_false. unfold SFleb.
  destruct (Prim2SF x), (Prim2SF y); cbn; try discriminate; split; congruence.
Qed.

Lemma leb_refl x : is_nan x = false -> (x <=? x) = true.
Proof.
  rewrite is_nan_false, FloatAxioms.leb_spec. intros H. unfold SFleb.
  now rewrite SFcompare_refl.
Qed.

Lemma SFleb_trans x y z :
  SFleb x y = true -> SFleb y z = true -> SFleb x z = true.
Proof.
  unfold SFleb.
  destruct x as [s1 | s1 | | s1 m1 e1], y as [s2 | s2 | | s2 m2 e2],
           z as [s3 | s3 | | s3 m3 e3]; cbn; try discriminate; try reflexivity.
  all: try (destruct s1, s2; cbn; (discriminate || reflexivity)).
  all: try (destruct s2, s3; cbn; (discriminate || reflexivity)).
  all: try (destruct s1, s3; cbn; (discriminate || reflexivity)).
  all: try (destruct s1, s2, s3; cbn; try discriminate; try reflexivity).
  all: repeat match goal with
       | |- context [Z.compare ?a ?b] => destruct (Z.compare_spec a b)
       end; try discriminate; try reflexivity; try lia; subst.
  all: repeat match goal with
       | |- context [Pos.compare_cont Eq ?a ?b] =>
           change (Pos.compare_cont Eq a b) with (Pos.compare a b);
           destruct (Pos.compare_spec a b)
       end; cbn; try discriminate; try reflexivity; try lia.
Qed.

Lemma leb_trans x y z :
  (x <=? y) = true -> (y <=? z) = true -> (x <=? z) = true.
Proof. rewrite !FloatAxioms.leb_spec. apply SFleb_trans. Qed.

End Binary64Order.

Section Binary64Zero.

Lemma is_zero_spec z :
  is_zero z = true <-> exists s, Prim2SF z = S754_zero s.
Proof.
  unfold is_zero. rewrite FloatAxioms.eqb_spec.
  change (Prim2SF zero) with (S754_zero false). unfold SFeqb. split.
  - destruct (Prim2SF z) as [s | s | | s m e]; cbn; try discriminate.
    + intros _. now exists s.
    + now destruct s.
    + now destruct s.
  - now intros [s ->].
Qed.

Lemma is_zero_cases z : is_zero z = true -> z = 0 \/ z = neg_zero.
Proof.
  intros H. apply is_zero_spec in H as [[] H]; [right | left];
    apply Prim2SF_inj; now rewrite H.
Qed.

Lemma is_finite_spec w :
  is_finite w = true ->
  (exists s, Prim2SF w = S754_zero s) \/
  (exists s m e, Prim2SF w = S754_finite s m e).
Proof.
  unfold is_finite, is_infinity. intros H.
  apply negb_true_iff, orb_false_iff in H as [Hn Hi].
  apply is_nan_false in Hn.
  rewrite FloatAxioms.eqb_spec, abs_spec in Hi.
  change (Prim2SF infinity) with (S754_infinity false) in Hi.
  destruct (Prim2SF w) as [s | s | | s m e]; try congruence.
  - left. now exists s.
  - discriminate.
  - right. now exists s, m, e.
Qed.

Lemma truthy_spec d :
  truthy d = true ->
  (exists s, Prim2SF d = S754_infinity s) \/
  (exists s m e, Prim2SF d = S754_finite s m e).
Proof.
  unfold truthy. intros H.
  apply negb_true_iff, orb_false_iff in H as [Hz Hn].
  apply is_nan_false in Hn.
  destruct (Prim2SF d) as [s | s | | s m e] eqn:E; try congruence.
  - assert (is_zero d = true) by (apply is_zero_spec; now exists s).
    congruence.
  - left. now exists s.
  - right. now exists s, m, e.
Qed.

(** A finite number times zero is a zero. *)
Lemma mul_zero_finite w : is_finite w = true -> is_zero (w * 0) = true.
Proof.
  intros H. apply is_zero_spec. rewrite mul_spec.
  change (Prim2SF 0) with (S754_zero false).
  destruct (is_finite_spec w H) as [[s ->] | (s & m & e & ->)]; cbn; eauto.
Qed.

(** Adding a zero of either sign to [+0] gives [+0]. *)
Lemma add_zero_zero z : is_zero z = true -> 0 + z = 0.
Proof.
  intros [-> | ->]%is_zero_cases; reflexivity.
Qed.

(** A zero divided by a truthy number, as a percentage, clamps to [+0]. *)
Lemma zero_percentage z d :
  is_zero z = true -> truthy d = true -> clamp (z / d * 100) 0 100 = 0.
Proof.
  intros Hz Hd.
  assert (Hq : is_zero (z / d * 100) = true).
  { apply is_zero_spec. rewrite mul_spec, div_spec.
    apply is_zero_spec in Hz as [s ->].
    change (Prim2SF 100) with (S754_finite false 7036874417766400 (-46)).
    destruct (truthy_spec d Hd) as [[s' ->] | (s' & m & e & ->)]; cbn; eauto. }
  apply is_zero_cases in Hq as [-> | ->]; reflexivity.
Qed.

Lemma div_self x :
  truthy x = true -> is_finite x = true -> x / x = 1.
Proof.
  intros Ht Hf. apply Prim2SF_inj. rewrite div_spec.
  destruct (truthy_spec x Ht) as [[s E] | (s & m & e & E)];
    destruct (is_finite_spec x Hf) as [[s' E'] | (s' & m' & e' & E')];
    try congruence.
  rewrite E. clear. cbn [SF64div SFdiv].
  assert (Hcore : SFdiv_core_binary prec emax (Z.pos m) e (Z.pos m) e
                  = (9007199254740992%Z, (-53)%Z, loc_Exact)).
  { unfold SFdiv_core_binary.
    replace (Zdigits2 (Z.pos m) + e - (Zdigits2 (Z.pos m) + e))%Z with 0%Z
      by lia.
    rewrite Z.sub_diag.
    change (Z.min (fexp prec emax 0) 0) with (-53)%Z.
    change (0 - -53)%Z with 53%Z.
    rewrite Z.shiftl_mul_pow2 by lia.
    pose proof (Z_div_mult (2 ^ 53) (Z.pos m) ltac:(lia)) as Hq.
    pose proof (Z_mod_mult (2 ^ 53) (Z.pos m)) as Hr.
    rewrite (Z.mul_comm (2 ^ 53)) in Hq, Hr.
    unfold Z.div, Z.modulo in Hq, Hr.
    destruct (Z.div_eucl _ _) as [q r]. cbn [fst snd] in Hq, Hr. subst q r.
    unfold new_location. now destruct (Z.even (Z.pos m)). }
  rewrite Hcore. now destruct s.
Qed.

End Binary64Zero.

Section Binary64NaN.

Lemma mul_nan_r x : x * nan = nan.
Proof.
  apply Prim2SF_inj. rewrite mul_spec. change (Prim2SF nan) with S754_nan.
  now destruct (Prim2SF x).
Qed.

Lemma add_nan_r x : x + nan = nan.
Proof.
  apply Prim2SF_inj. rewrite add_spec. change (Prim2SF nan) with S754_nan.
  now destruct (Prim2SF x).
Qed.

Lemma add_nan_l x : nan + x = nan.
Proof.
  apply Prim2SF_inj. rewrite add_spec. now change (Prim2SF nan) with S754_nan.
Qed.

End Binary64NaN.

(* ------------------------------------------------------------------ *)
(** ** [clamp] between 0 and a positive bound *)
(* ------------------------------------------------------------------ *)

Section Clamp.

Variable hi : float.
Hypothesis Hhi : (0 <? hi) = true.

Lemma hi_not_zero : Leibniz.eqb hi zero = false.
Proof.
  destruct (Leibniz.eqb hi zero) eqn:E; [| done].
  apply Leibniz.eqb_spec in E. rewrite E in Hhi. discriminate.
Qed.

Lemma hi_not_nan : is_nan hi = false.
Proof. now apply ltb_not_nan in Hhi. Qed.

(** The four shapes of [clamp v 0 hi]. *)
Lemma clamp_cases v :
  (is_nan v = true /\ clamp v 0 hi = nan) \/
  (is_nan v = false /\ clamp v 0 hi = 0) \/
  (is_nan v = false /\ clamp v 0 hi = hi) \/
  (is_nan v = false /\ (v <? hi) = true /\ (0 <? v) = true /\ clamp v 0 hi = v).
Proof.
  unfold clamp, Math_min, Math_max. rewrite hi_not_nan, hi_not_zero.
  destruct (is_nan v) eqn:Hn; cbn [orb andb].
  - left. done.
  - right. destruct (v <? hi) eqn:Hlt.
    + rewrite Hn. change (is_nan 0) with false. cbn [orb].
      destruct (0 <? v) eqn:H0.
      * right. right. done.
      * left. change (Leibniz.eqb 0 neg_zero) with false. done.
    + right. left. rewrite hi_not_nan. change (is_nan 0) with false.
      cbn [orb]. now rewrite Hhi.
Qed.

Lemma clamp_fixed v :
  is_nan v = false -> (v <? hi) = true -> (0 <? v) = true ->
  clamp v 0 hi = v.
Proof.
  intros Hn Hlt H0. unfold clamp, Math_min, Math_max.
  rewrite hi_not_nan, Hn. cbn [orb]. rewrite Hlt, Hn.
  change (is_nan 0) with false. cbn [orb]. now rewrite H0.
Qed.

End Clamp.

Lemma clamp_idempotent (v hi : float) :
  (0 <? hi) = true ->
  clamp (clamp v 0 hi) 0 hi = clamp v 0 hi.
Proof.
  intros Hhi.
  destruct (clamp_cases hi Hhi v)
    as [[_ ->] | [[_ ->] | [[_ ->] | (Hn & Hlt & H0 & ->)]]].
  - unfold clamp, Math_min. change (is_nan nan) with true.
    rewrite orb_true_r. reflexivity.
  - unfold clamp, Math_min, Math_max. rewrite (hi_not_nan hi Hhi).
    change (is_nan 0) with false. cbn [orb]. rewrite Hhi.
    reflexivity.
  - unfold clamp, Math_min, Math_max. rewrite (hi_not_nan hi Hhi).
    cbn [orb].
    assert (Hirr : (hi <? hi) = false).
    { rewrite FloatAxioms.ltb_spec. unfold SFltb.
      rewrite SFcompare_refl; [done |].
      apply is_nan_false, (hi_not_nan hi Hhi). }
    rewrite Hirr, (hi_not_zero hi Hhi). cbn [andb].
    rewrite (hi_not_nan hi Hhi). change (is_nan 0) with false.
    cbn [orb]. now rewrite Hhi.
  - now apply clamp_fixed.
Qed.

Lemma clamp_bounds (v hi : float) :
  (0 <? hi) = true ->
  is_nan (clamp v 0 hi) = is_nan v /\
  (is_nan v = true -> clamp v 0 hi = nan) /\
  (is_nan v = false ->
     (0 <=? clamp v 0 hi) = true /\ (clamp v 0 hi <=? hi) = true) /\
  Leibniz.eqb (clamp v 0 hi) neg_zero = false.
Proof.
  intros Hhi.
  pose proof (hi_not_nan hi Hhi) as Hnh.
  destruct (clamp_cases hi Hhi v)
    as [[Hn ->] | [[Hn ->] | [[Hn ->] | (Hn & Hlt & H0 & ->)]]];
    rewrite Hn.
  - repeat split; try done.
  - repeat split; try done. now apply ltb_leb.
  - repeat split; try done.
    + now apply ltb_leb.
    + now apply leb_refl.
    + destruct (Leibniz.eqb hi neg_zero) eqn:E; [| done].
      apply Leibniz.eqb_spec in E. rewrite E in Hhi. discriminate.
  - repeat split; try done.
    + now apply ltb_leb.
    + now apply ltb_leb.
    + destruct (Leibniz.eqb v neg_zero) eqn:E; [| done].
      apply Leibniz.eqb_spec in E. rewrite E in H0. discriminate.
Qed.

(** X1. For a positive upper bound (the code uses 5 and 100), [clamp]
    returns NaN exactly for NaN, otherwise a number between 0 and the bound
    and never [-0]; clamping a clamped value changes nothing. *)
Theorem clamp_range_and_idempotence (v hi : float) :
  (0 <? hi) = true ->
  is_nan (clamp v 0 hi) = is_nan v /\
  (is_nan v = false ->
     (0 <=? clamp v 0 hi) = true /\ (clamp v 0 hi <=? hi) = true) /\
  Leibniz.eqb (clamp v 0 hi) neg_zero = false /\
  clamp (clamp v 0 hi) 0 hi = clamp v 0 hi.
Proof.
  intros Hhi. destruct (clamp_bounds v hi Hhi) as (Hn & _ & Hr & Hz).
  repeat split; try done; try (now apply Hr). now apply clamp_idempotent.
Qed.

Lemma clamp_range_and_idempotence_witness :
  is_nan (clamp 7 0 5) = is_nan 7 /\
  (is_nan 7 = false ->
     (0 <=? clamp 7 0 5) = true /\ (clamp 7 0 5 <=? 5) = true) /\
  Leibniz.eqb (clamp 7 0 5) neg_zero = false /\
  clamp (clamp 7 0 5) 0 5 = clamp 7 0 5.
Proof. apply (clamp_range_and_idempotence 7 5). reflexivity. Defined.

Lemma clamp_percentage x : percentage (clamp x 0 100).
Proof.
  destruct (clamp_bounds x 100 eq_refl) as (Hn & _ & Hr & _).
  unfold percentage. rewrite Hn. destruct (is_nan x); [now left |].
  right. now apply Hr.
Qed.

(* ------------------------------------------------------------------ *)
(** ** The ratings the component stores *)
(* ------------------------------------------------------------------ *)

Lemma clampedRatings_empty : clampedRatings ∅.
Proof. intros key r H. by rewrite lookup_empty in H. Qed.

Lemma clampedRatings_insert sc key v :
  clampedRatings sc -> clampedRatings (<[key := clamp v 0 5]> sc).
Proof.
  intros Hsc k r. rewrite lookup_insert. case_decide.
  - intros [= <-]. now apply clamp_idempotent.
  - apply Hsc.
Qed.

(** A render leaves the state cells alone. *)
Lemma render_state (h : App.Hooks) :
  App.config (App.render h) = App.config h /\
  App.scores (App.render h) = App.scores h /\
  App.bands (App.render h) = App.bands h /\
  App.showSettings (App.render h) = App.showSettings h.
Proof. done. Qed.

Lemma handle_clamped e (h : App.Hooks) :
  clampedRatings (App.deref (App.scores h)) ->
  clampedRatings (App.deref (App.scores (App.handle e h))).
Proof.
  intros Hc. destruct e as [key val | [[msg | json] |] | | | | idx v | idx v];
    cbn [App.handle App.handleUpload App.handleDownloadScores fst]; try done.
  - now apply clampedRatings_insert.
  - destruct (App.doc_model json); [apply clampedRatings_empty | done].
Qed.

Lemma run_clamped cfg sc bs trace :
  clampedRatings sc ->
  clampedRatings (App.deref (App.scores (App.run cfg sc bs trace))).
Proof.
  unfold App.run. intros Hsc.
  assert (H0 : clampedRatings (App.deref (App.scores (App.mount cfg sc bs))))
    by done.
  revert H0. generalize (App.mount cfg sc bs).
  induction trace as [| e trace IH]; intros h Hh; [done |].
  cbn [fold_left]. apply IH. unfold App.step.
  destruct (render_state (App.handle e h)) as (_ & -> & _).
  now apply handle_clamped.
Qed.

Lemma ratingOf_clamped sc key :
  clampedRatings sc -> ratingOf sc key = default 0 (sc !! key).
Proof.
  intros Hsc. unfold ratingOf. destruct (sc !! key) as [r |] eqn:E; cbn.
  - now apply (Hsc key).
  - reflexivity.
Qed.

(** X2. Started with ratings that are already clamped (the component
    starts with none), the component only ever stores clamped ratings,
    whatever the user does: the rating an indicator shows is the rating
    [computeWeighted] scores it with, and every exported rating is
    clamped. *)
Theorem stored_ratings_are_clamped :
  forall (cfg : Config) (sc : gmap string float) (bs : list Band)
         (trace : list App.Event),
    clampedRatings sc ->
    let h := App.run cfg sc bs trace in
    clampedRatings (App.deref (App.scores h)) /\
    (forall key, ratingOf (App.deref (App.scores h)) key = App.ratingShown h key) /\
    clampedRatings (App.snap_scores (App.handleDownloadScores h).2).
Proof.
  intros cfg sc bs trace Hsc h.
  pose proof (run_clamped cfg sc bs trace Hsc) as Hh. fold h in Hh.
  split; [done |]. split; [| done].
  intros key. now apply ratingOf_clamped.
Qed.

Lemma stored_ratings_are_clamped_witness :
  let h := App.run DEFAULT_CONFIG ∅ initial_bands
             [App.EScore "Financial Performance::RoA" 9] in
  clampedRatings (App.deref (App.scores h)) /\
  (forall key, ratingOf (App.deref (App.scores h)) key = App.ratingShown h key) /\
  clampedRatings (App.snap_scores (App.handleDownloadScores h).2).
Proof.
  apply (stored_ratings_are_clamped DEFAULT_CONFIG ∅ initial_bands
           [App.EScore "Financial Performance::RoA" 9]).
  apply clampedRatings_empty.
Defined.

(* ------------------------------------------------------------------ *)
(** ** Rating keys and single ratings *)
(* ------------------------------------------------------------------ *)

Lemma append_cancel (p a b : string) : p +:+ a = p +:+ b -> a = b.
Proof.
  induction p as [| c p IH]; cbn; [done |]. intros [= H]. now apply IH.
Qed.

(** X3. Within a dimension two indicators have the same rating key exactly
    when they have the same [kpi]. *)
Theorem makeKey_distinguishes_kpis :
  forall (dim : string) (i1 i2 : Item),
    makeKey dim i1 = makeKey dim i2 <-> kpi i1 = kpi i2.
Proof.
  intros dim i1 i2. unfold makeKey. split.
  - intros H. apply append_cancel in H. now apply append_cancel in H.
  - now intros ->.
Qed.

(** X4. Rating an indicator stores the clamped value under its key and
    touches nothing else: every other key, in particular every indicator
    of the dimension with another [kpi], keeps its rating, the config and
    the bands stay, and of two ratings of one indicator the later one
    stands. *)
Theorem handleScore_sets_one_rating :
  forall (h : App.Hooks) (dim : string) (it : Item) (val : float),
    let h' := App.step h (App.EScore (makeKey dim it) val) in
    App.ratingShown h' (makeKey dim it) = clamp val 0 5 /\
    (forall key, key <> makeKey dim it ->
                 App.ratingShown h' key = App.ratingShown h key) /\
    (forall other, kpi other <> kpi it ->
                   App.ratingShown h' (makeKey dim other)
                   = App.ratingShown h (makeKey dim other)) /\
    App.config h' = App.config h /\ App.bands h' = App.bands h /\
    (forall val0,
        App.deref (App.scores
                     (App.handleScore (makeKey dim it) val
                        (App.handleScore (makeKey dim it) val0 h)))
        = App.deref (App.scores h')).
Proof.
  intros h dim it val h'. subst h'. unfold App.step, App.ratingShown.
  destruct (render_state (App.handle (App.EScore (makeKey dim it) val) h))
    as (-> & -> & -> & _).
  cbn [App.handle App.handleScore App.setScores App.scores App.config
       App.bands App.deref].
  split; [now rewrite lookup_insert_eq |].
  split; [intros key Hne; now rewrite lookup_insert_ne |].
  split.
  { intros other Hne. rewrite lookup_insert_ne; [done |].
    intros E. apply Hne. symmetry.
    apply append_cancel in E. now apply append_cancel in E. }
  split; [done |]. split; [done |].
  intros val0. apply insert_insert_eq.
Qed.

(* ------------------------------------------------------------------ *)
(** ** More on [computeWeighted] *)
(* ------------------------------------------------------------------ *)

Lemma computeWeighted_ext_in (m : Model) sc1 sc2 :
  (forall dim it, (dim, it) ∈ allItems m ->
     ratingOf sc1 (makeKey dim it) = ratingOf sc2 (makeKey dim it)) ->
  computeWeighted m sc1 = computeWeighted m sc2.
Proof.
  intros H. unfold computeWeighted. apply fold_left_ext_in.
  intros acc [dim subs] Hin. rewrite !dim_step_eq.
  assert (Hd : forall a, dimSum_from dim sc1 subs a = dimSum_from dim sc2 subs a).
  { intros a. apply dimSum_from_ext. intros it Hit. apply H.
    apply elem_of_allItems. now exists subs. }
  now rewrite !Hd.
Qed.

(** X5. A ratings entry under a key that no indicator of the config has is
    never read: adding, changing or removing it leaves the whole result of
    [computeWeighted] as it is. *)
Theorem rating_of_unknown_key_ignored :
  forall (m : Model) (sc : gmap string float) (key : string) (v : float),
    (forall dim it, (dim, it) ∈ allItems m -> makeKey dim it <> key) ->
    computeWeighted m (<[key := v]> sc) = computeWeighted m sc /\
    computeWeighted m (delete key sc) = computeWeighted m sc.
Proof.
  intros m sc key v Hkey.
  split; apply computeWeighted_ext_in; intros dim it Hin; unfold ratingOf.
  - rewrite lookup_insert_ne; [done |]. intros E. now apply (Hkey dim it).
  - rewrite lookup_delete_ne; [done |]. intros E. now apply (Hkey dim it).
Qed.

Lemma rating_of_unknown_key_ignored_witness :
  computeWeighted two_dims (<["Outlook::Momentum" := 4]> ∅)
    = computeWeighted two_dims ∅ /\
  computeWeighted two_dims (delete "Outlook::Momentum" ∅)
    = computeWeighted two_dims ∅.
Proof.
  apply (rating_of_unknown_key_ignored two_dims ∅ "Outlook::Momentum" 4).
  intros dim it Hin. elem_cases Hin; discriminate.
Defined.

Lemma contribution_zero dim (sc : gmap string float) it :
  ratingOf sc (makeKey dim it) = 0 -> is_finite (weightOf it) = true ->
  is_zero (contribution dim sc it) = true.
Proof.
  intros Hr Hf. unfold contribution. rewrite Hr.
  change (0 / 5) with 0. now apply mul_zero_finite.
Qed.

Lemma fold_zero {A : Type} (f : A -> float) (l : list A) :
  (forall x, x ∈ l -> is_zero (f x) = true) ->
  fold_left (fun a x => a + f x) l 0 = 0.
Proof.
  induction l as [| x l IH]; intros H; [done |].
  cbn [fold_left]. rewrite add_zero_zero.
  - apply IH. intros y Hy. apply H. apply elem_of_cons. now right.
  - apply H. apply elem_of_cons. now left.
Qed.

Lemma zero_ratings_total (m : Model) (sc : gmap string float) :
  ratedAt m sc 0 -> finiteWeights m ->
  total (computeWeighted m sc) = 0.
Proof.
  intros Hr Hf. rewrite computeWeighted_total. unfold sumContributions.
  apply (fold_zero (fun e => contribution e.1 sc e.2)).
  intros [dim it] Hin. apply contribution_zero; [now apply Hr |].
  now apply (Hf dim).
Qed.

Lemma zero_ratings_dimSum (m : Model) (sc : gmap string float) dim subs :
  ratedAt m sc 0 -> finiteWeights m -> (dim, subs) ∈ m ->
  dimSum_from dim sc subs 0 = 0.
Proof.
  intros Hr Hf Hin. unfold dimSum_from.
  apply (fold_zero (contribution dim sc)).
  intros it Hit. apply contribution_zero.
  - apply Hr. apply elem_of_allItems. now exists subs.
  - apply (Hf dim). apply elem_of_allItems. now exists subs.
Qed.

Lemma ratedAt_empty (m : Model) : ratedAt m ∅ 0.
Proof. intros dim it _. reflexivity. Qed.

Lemma js_or_truthy d : truthy (js_or d 1) = true.
Proof. unfold js_or. now destruct (truthy d) eqn:E. Qed.

Lemma js_or_idem d : js_or (js_or d 1) 1 = js_or d 1.
Proof. unfold js_or at 1. now rewrite js_or_truthy. Qed.

(** X6. When every indicator is rated 0 (or not rated) and no weight is
    infinite, [total] and [totalPct] are 0, and every dimension that is
    not named [__proto__] reports the sum 0 and the percentage 0.  (An
    infinite weight times 0 is NaN.) *)
Theorem zero_ratings_give_zero :
  forall (m : Model) (sc : gmap string float),
    ratedAt m sc 0 -> finiteWeights m ->
    total (computeWeighted m sc) = 0 /\
    totalPct_of (total (computeWeighted m sc)) = 0 /\
    (NoDup (map fst m) ->
     forall dim subs, (dim, subs) ∈ m -> dim <> "__proto__" ->
       perDim (computeWeighted m sc) !! dim = Some 0 /\
       radarScore (computeWeighted m sc) dim = 0).
Proof.
  intros m sc Hr Hf.
  pose proof (zero_ratings_total m sc Hr Hf) as Ht.
  split; [done |]. split; [rewrite Ht; vm_compute; reflexivity |].
  intros Hnd dim subs Hin Hproto.
  destruct (perDim_fold sc m {| total := 0; perDim := ∅; perDimDen := ∅ |}
              dim subs Hnd Hin Hproto) as [Hsum Hden].
  fold (computeWeighted m sc) in Hsum, Hden.
  rewrite (zero_ratings_dimSum m sc dim subs Hr Hf Hin) in Hsum.
  split; [done |]. unfold radarScore. rewrite Hsum, Hden.
  cbn [default from_option].
  rewrite (js_or_idem (dimWeight_from subs 0)).
  apply zero_percentage; [done | apply js_or_truthy].
Qed.

Lemma two_dims_finite : finiteWeights two_dims.
Proof. intros dim it Hin. elem_cases Hin; reflexivity. Qed.

Lemma zero_ratings_give_zero_witness :
  total (computeWeighted two_dims ∅) = 0 /\
  totalPct_of (total (computeWeighted two_dims ∅)) = 0 /\
  (NoDup (map fst two_dims) ->
   forall dim subs, (dim, subs) ∈ two_dims -> dim <> "__proto__" ->
     perDim (computeWeighted two_dims ∅) !! dim = Some 0 /\
     radarScore (computeWeighted two_dims ∅) dim = 0).
Proof.
  apply (zero_ratings_give_zero two_dims ∅).
  - apply ratedAt_empty.
  - apply two_dims_finite.
Defined.

(** The dimension names under which an assignment stores a property. *)
Lemma dom_setProperty (o : gmap string float) k v :
  dom (setProperty o k v)
  =@{gset string} dom o ∪ list_to_set (filter (fun d => d <> "__proto__") [k]).
Proof.
  unfold setProperty. rewrite filter_cons, filter_nil.
  destruct (decide (k = "__proto__")) as [Hk | Hk].
  - rewrite decide_False by (intros H; now apply H).
    cbn [list_to_set]. now rewrite union_empty_r_L.
  - rewrite decide_True by done. cbn [list_to_set].
    rewrite dom_insert_L, union_empty_r_L. apply union_comm_L.
Qed.

Lemma dims_fold sc (m : Model) (acc : Weighted) :
  dom (perDim (fold_left (dim_step sc) m acc))
    =@{gset string}
    dom (perDim acc)
    ∪ list_to_set (filter (fun d => d <> "__proto__") (map fst m)) /\
  dom (perDimDen (fold_left (dim_step sc) m acc))
    =@{gset string}
    dom (perDimDen acc)
    ∪ list_to_set (filter (fun d => d <> "__proto__") (map fst m)) /\
  ((forall dim d, perDimDen acc !! dim = Some d -> truthy d = true) ->
   forall dim d,
     perDimDen (fold_left (dim_step sc) m acc) !! dim = Some d ->
     truthy d = true).
Proof.
  revert acc. induction m as [| [d subs] m IH]; intros acc.
  - cbn [fold_left map]. rewrite filter_nil. cbn [list_to_set].
    now rewrite !union_empty_r_L.
  - cbn [fold_left map fst].
    destruct (IH (dim_step sc acc (d, subs))) as (H1 & H2 & H3).
    rewrite H1, H2, dim_step_eq. cbn [perDim perDimDen].
    rewrite !dom_setProperty.
    change (d :: map fst m) with ([d] ++ map fst m).
    rewrite filter_app, list_to_set_app_L, !union_assoc_L.
    split; [done |]. split; [done |].
    intros Hacc. rewrite dim_step_eq in H3. apply H3. cbn [perDimDen].
    intros dim den. rewrite lookup_setProperty.
    case_decide; [apply Hacc |]. case_decide.
    + intros [= <-]. apply js_or_truthy.
    + apply Hacc.
Qed.

(** X7. [perDim] and [perDimDen] have an entry for exactly the dimensions
    of the config that are not named [__proto__], and no reported
    denominator is 0 or NaN: the [perDimDen[dim] || 1] of the percentage is
    the denominator itself and the division is never by zero.  Under
    [__proto__] nothing is stored, and the percentage read there is NaN. *)
Theorem computeWeighted_reports_every_dimension :
  forall (m : Model) (sc : gmap string float),
    dom (perDim (computeWeighted m sc))
      =@{gset string}
      list_to_set (filter (fun d => d <> "__proto__") (map fst m)) /\
    dom (perDimDen (computeWeighted m sc))
      =@{gset string}
      list_to_set (filter (fun d => d <> "__proto__") (map fst m)) /\
    (forall dim d,
        perDimDen (computeWeighted m sc) !! dim = Some d ->
        truthy d = true /\ js_or d 1 = d) /\
    perDim (computeWeighted m sc) !! "__proto__" = None /\
    perDimDen (computeWeighted m sc) !! "__proto__" = None /\
    radarScore (computeWeighted m sc) "__proto__" = nan.
Proof.
  intros m sc.
  destruct (perDim_fold_proto sc m
              {| total := 0; perDim := ∅; perDimDen := ∅ |}) as [Hp Hd].
  fold (computeWeighted m sc) in Hp, Hd.
  cbn [perDim perDimDen] in Hp, Hd. rewrite lookup_empty in Hp, Hd.
  unfold radarScore. rewrite Hp, Hd. unfold computeWeighted.
  destruct (dims_fold sc m {| total := 0; perDim := ∅; perDimDen := ∅ |})
    as (H1 & H2 & H3).
  cbn [perDim perDimDen] in *. rewrite H1, H2, dom_empty_L.
  rewrite union_empty_l_L.
  split; [done |]. split; [done |]. split; [| done].
  intros dim d Hdim.
  assert (Ht : truthy d = true).
  { apply (H3 ltac:(intros ? ? H; by rewrite lookup_empty in H) dim d Hdim). }
  split; [done |]. unfold js_or. now rewrite Ht.
Qed.

(** X8. A dimension, not named [__proto__], whose indicators are all rated
    5 and whose weights sum to a finite number other than zero reports
    that sum both as its score and as its denominator, and the percentage
    100. *)
Theorem fully_rated_dimension_reports_100 :
  forall (m : Model) (sc : gmap string float) (dim : string) (subs : Subs),
    NoDup (map fst m) ->
    (dim, subs) ∈ m ->
    dim <> "__proto__" ->
    (forall it, it ∈ dimItems subs -> sc !! makeKey dim it = Some 5) ->
    truthy (dimWeight_from subs 0) = true ->
    is_finite (dimWeight_from subs 0) = true ->
    perDim (computeWeighted m sc) !! dim = Some (dimWeight_from subs 0) /\
    perDimDen (computeWeighted m sc) !! dim = Some (dimWeight_from subs 0) /\
    radarScore (computeWeighted m sc) dim = 100.
Proof.
  intros m sc dim subs Hnd Hin Hproto Hfive Ht Hf.
  destruct (perDim_fold sc m {| total := 0; perDim := ∅; perDimDen := ∅ |}
              dim subs Hnd Hin Hproto) as [Hsum Hden].
  fold (computeWeighted m sc) in Hsum, Hden.
  assert (Hs : dimSum_from dim sc subs 0 = dimWeight_from subs 0).
  { unfold dimSum_from, dimWeight_from. apply fold_left_ext_in.
    intros x it Hit. f_equal. now apply contribution_five, Hfive. }
  assert (Hd : js_or (dimWeight_from subs 0) 1 = dimWeight_from subs 0).
  { unfold js_or. now rewrite Ht. }
  rewrite Hs in Hsum. rewrite Hd in Hden.
  split; [done |]. split; [done |].
  unfold radarScore. rewrite Hsum, Hden. cbn [default from_option].
  rewrite Hd, div_self by done. reflexivity.
Qed.

Lemma fully_rated_dimension_reports_100_witness :
  perDim (computeWeighted two_dims {[ "Risk::PAR" := 5 ]}) !! "Risk"
    = Some (dimWeight_from [ ("Credit", [ mkItem "PAR" 0.5 None ]) ] 0) /\
  perDimDen (computeWeighted two_dims {[ "Risk::PAR" := 5 ]}) !! "Risk"
    = Some (dimWeight_from [ ("Credit", [ mkItem "PAR" 0.5 None ]) ] 0) /\
  radarScore (computeWeighted two_dims {[ "Risk::PAR" := 5 ]}) "Risk" = 100.
Proof.
  apply (fully_rated_dimension_reports_100 two_dims {[ "Risk::PAR" := 5 ]}
           "Risk" [ ("Credit", [ mkItem "PAR" 0.5 None ]) ]).
  - nodup_cases.
  - apply elem_of_cons. now left.
  - discriminate.
  - intros it Hit. elem_cases Hit. reflexivity.
  - reflexivity.
  - reflexivity.
Defined.

(** X9. [radarData] lists the dimensions of the config in their order,
    each with a score that is NaN or lies between 0 and 100, whatever
    [perDim] and [perDimDen] hold. *)
Theorem radarData_lists_dimensions_in_range :
  forall (m : Model) (w : Weighted),
    map fst (radarData m w) = map fst m /\
    Forall (fun e => percentage e.2) (radarData m w).
Proof.
  intros m w. unfold radarData. split.
  - rewrite map_map. cbn. now rewrite map_id.
  - apply Forall_forall. intros e He.
    apply list_elem_of_fmap in He as (dim & -> & _). cbn.
    apply clamp_percentage.
Qed.

(** A NaN term makes a running sum NaN. *)
Lemma fold_nan {A : Type} (f : A -> float) (l : list A) :
  fold_left (fun a x => a + f x) l nan = nan.
Proof.
  induction l as [| x l IH]; [done |]. cbn [fold_left].
  now rewrite add_nan_l.
Qed.

Lemma fold_poisoned {A : Type} (f : A -> float) (l : list A) x a :
  x ∈ l -> f x = nan -> fold_left (fun a x => a + f x) l a = nan.
Proof.
  revert a. induction l as [| y l IH]; intros a Hin Hx.
  - by apply elem_of_nil in Hin.
  - cbn [fold_left]. apply elem_of_cons in Hin as [<- | Hin].
    + rewrite Hx, add_nan_r. apply fold_nan.
    + now apply IH.
Qed.

(* ------------------------------------------------------------------ *)
(** ** More on [gradeFromScore] *)
(* ------------------------------------------------------------------ *)

Lemma find_elem_of {A : Type} (P : A -> bool) (l : list A) x :
  List.find P l = Some x -> x ∈ l /\ P x = true.
Proof.
  induction l as [| y l IH]; cbn; [done |].
  destruct (P y) eqn:E.
  - intros [= <-]. split; [apply elem_of_cons; now left | done].
  - intros H. destruct (IH H). split; [apply elem_of_cons; now right | done].
Qed.

Lemma last_elem_of {A : Type} (l : list A) x : last l = Some x -> x ∈ l.
Proof.
  intros H. apply last_Some in H as [l' ->].
  apply elem_of_app. right. apply elem_of_cons. now left.
Qed.

(** A NaN score meets no threshold. *)
Lemma scan_of_NaN (pct : float) (bands : list Band) :
  is_nan pct = true ->
  gradeFromScore pct bands = default "N/A" (label <$> last bands).
Proof.
  intros Hn. unfold gradeFromScore.
  assert (Hscan : gradeFromScore_scan pct bands = None).
  { induction bands as [| b bands IH]; [done |].
    cbn [gradeFromScore_scan].
    destruct (min b <=? pct) eqn:E; [| done].
    apply leb_not_nan in E as [_ E]. congruence. }
  rewrite Hscan. now destruct (last bands).
Qed.

(** X10. On a non-empty band list [gradeFromScore] returns the label of
    one of the bands, for every score. *)
Theorem gradeFromScore_returns_a_band_label :
  forall (pct : float) (bands : list Band),
    bands <> [] ->
    exists b, b ∈ bands /\ gradeFromScore pct bands = label b.
Proof.
  intros pct bands Hne. unfold gradeFromScore. rewrite scan_find.
  destruct (List.find _ bands) as [b |] eqn:E; cbn.
  - exists b. split; [| done]. now apply find_elem_of in E.
  - destruct (last bands) as [b |] eqn:El.
    + exists b. split; [| done]. now apply last_elem_of.
    + apply last_None in El. congruence.
Qed.

Lemma gradeFromScore_returns_a_band_label_witness :
  exists b, b ∈ initial_bands /\ gradeFromScore 62.5 initial_bands = label b.
Proof.
  apply (gradeFromScore_returns_a_band_label 62.5 initial_bands).
  discriminate.
Defined.

(** X11. NaN never selects a band: a NaN score gets the fall-back (the
    last band's label, "N/A" without bands), and a band that the scan
    returns has a threshold that is not NaN. *)
Theorem gradeFromScore_and_NaN :
  forall (pct : float) (bands : list Band),
    (is_nan pct = true ->
     gradeFromScore pct bands = default "N/A" (label <$> last bands)) /\
    (forall b, List.find (fun x => min x <=? pct) bands = Some b ->
               is_nan (min b) = false /\ is_nan pct = false).
Proof.
  intros pct bands. split; [apply scan_of_NaN |].
  intros b Hf. apply find_elem_of in Hf as [_ Hb].
  now apply leb_not_nan in Hb.
Qed.

Lemma gradeFromScore_and_NaN_witness :
  gradeFromScore nan initial_bands = "E".
Proof.
  apply (proj1 (gradeFromScore_and_NaN nan initial_bands)). reflexivity.
Defined.

Lemma scan_at_or_before pct (bands : list Band) i b :
  bands !! i = Some b -> (min b <=? pct) = true ->
  exists j b', (j <= i)%nat /\ bands !! j = Some b' /\
               (min b' <=? pct) = true /\
               gradeFromScore_scan pct bands = Some (label b').
Proof.
  revert i. induction bands as [| a bands IH]; intros i Hi Hb; [done |].
  cbn [gradeFromScore_scan]. destruct (min a <=? pct) eqn:Ea.
  - exists 0%nat, a. split; [lia | done].
  - destruct i as [| i]; cbn in Hi.
    + injection Hi as ->. congruence.
    + destruct (IH i Hi Hb) as (j & b' & Hj & Hlk & Hm & Hs).
      exists (S j), b'. split; [lia | done].
Qed.

(** X12. A higher score never gets a later band: when the band at
    position [i] qualifies for a score, every score at least as high is
    graded with a band at position [i] or before, in whatever order the
    bands are. *)
Theorem gradeFromScore_monotone :
  forall (p1 p2 : float) (bands : list Band) (i : nat) (b : Band),
    (p1 <=? p2) = true ->
    bands !! i = Some b -> (min b <=? p1) = true ->
    exists j b', (j <= i)%nat /\ bands !! j = Some b' /\
                 gradeFromScore p2 bands = label b'.
Proof.
  intros p1 p2 bands i b Hp Hi Hb.
  assert (Hb2 : (min b <=? p2) = true) by now apply (leb_trans _ p1).
  destruct (scan_at_or_before p2 bands i b Hi Hb2)
    as (j & b' & Hj & Hlk & _ & Hs).
  exists j, b'. unfold gradeFromScore. now rewrite Hs.
Qed.

Lemma gradeFromScore_monotone_witness :
  exists j b', (j <= 2)%nat /\ initial_bands !! j = Some b' /\
               gradeFromScore 90 initial_bands = label b'.
Proof.
  apply (gradeFromScore_monotone 60 90 initial_bands 2 (mkBand "C" 55));
    reflexivity.
Defined.

(** X13. When the bands are in descending order of [min], as the comment
    in the source asks, the first match is the best match: the returned
    band has the highest threshold among the bands the score reaches. *)
Theorem gradeFromScore_best_match_when_descending :
  forall (pct : float) (bands : list Band) (b : Band),
    descending bands ->
    List.find (fun x => min x <=? pct) bands = Some b ->
    gradeFromScore pct bands = label b /\
    forall b', b' ∈ bands -> (min b' <=? pct) = true ->
               (min b' <=? min b) = true.
Proof.
  intros pct bands b Hd Hf. split.
  { unfold gradeFromScore. now rewrite scan_find, Hf. }
  induction bands as [| a bands IH]; [done |].
  destruct Hd as [Ha Hd]. cbn [List.find] in Hf.
  destruct (min a <=? pct) eqn:Ea.
  - injection Hf as <-. intros b' Hb' _.
    apply elem_of_cons in Hb' as [-> | Hb'].
    + apply leb_refl. now apply leb_not_nan in Ea.
    + rewrite Forall_forall in Ha. now apply Ha.
  - intros b' Hb' Hm. apply elem_of_cons in Hb' as [-> | Hb'];
      [congruence |]. now apply IH.
Qed.

Lemma initial_bands_descending : descending initial_bands.
Proof. cbn. repeat split; repeat constructor. Qed.

Lemma gradeFromScore_best_match_when_descending_witness :
  gradeFromScore 72 initial_bands = label (mkBand "B" 70) /\
  forall b', b' ∈ initial_bands -> (min b' <=? 72) = true ->
             (min b' <=? min (mkBand "B" 70)) = true.
Proof.
  apply (gradeFromScore_best_match_when_descending 72 initial_bands
           (mkBand "B" 70)).
  - apply initial_bands_descending.
  - reflexivity.
Defined.

(** X14. A NaN rating is not clamped away: if the ratings map holds NaN
    for an indicator of the config, whatever its weight, [total] and
    [totalPct] are NaN and the grade is the fall-back of [gradeFromScore]
    (the last band's label). *)
Theorem nan_rating_poisons_the_score :
  forall (m : Model) (sc : gmap string float) (dim : string) (it : Item),
    (dim, it) ∈ allItems m ->
    sc !! makeKey dim it = Some nan ->
    total (computeWeighted m sc) = nan /\
    totalPct_of (total (computeWeighted m sc)) = nan /\
    forall bands,
      gradeFromScore (totalPct_of (total (computeWeighted m sc))) bands
      = default "N/A" (label <$> last bands).
Proof.
  intros m sc dim it Hin Hsc.
  assert (Ht : total (computeWeighted m sc) = nan).
  { rewrite computeWeighted_total. unfold sumContributions.
    apply (fold_poisoned (fun e => contribution e.1 sc e.2) _ (dim, it));
      [done |].
    cbn [fst snd]. unfold contribution, ratingOf. rewrite Hsc.
    change (clamp (default 0 (Some nan)) 0 5 / 5) with nan.
    apply mul_nan_r. }
  rewrite Ht. change (totalPct_of nan) with nan.
  split; [done |]. split; [done |].
  intros bands. now apply scan_of_NaN.
Qed.

Lemma nan_rating_poisons_the_score_witness :
  total (computeWeighted two_dims {[ "Risk::PAR" := nan ]}) = nan /\
  totalPct_of (total (computeWeighted two_dims {[ "Risk::PAR" := nan ]}))
    = nan /\
  forall bands,
    gradeFromScore
      (totalPct_of (total (computeWeighted two_dims {[ "Risk::PAR" := nan ]})))
      bands
    = default "N/A" (label <$> last bands).
Proof.
  apply (nan_rating_poisons_the_score two_dims {[ "Risk::PAR" := nan ]}
           "Risk" (mkItem "PAR" 0.5 None)).
  - apply elem_of_cons. now left.
  - reflexivity.
Defined.

(* ------------------------------------------------------------------ *)
(** ** More on the component *)
(* ------------------------------------------------------------------ *)

Section ComponentEvents.

Import App Invariant.

(** What a rendered component shows is computed from its state. *)
Lemma rendered_values (h : Hooks) :
  Coherent h -> Rendered h ->
  totalPct h
    = totalPct_of (total (computeWeighted (model (deref (config h)))
                                          (deref (scores h)))) /\
  finalGrade h = gradeFromScore (totalPct h) (deref (bands h)).
Proof.
  intros [Cw Ct Cg _ _ _ _ _ _] [Hw Ht Hg]. unfold totalPct, finalGrade.
  specialize (Cw Hw). rewrite Hg in Cg. cbn [fst snd] in Cg.
  rewrite Cg by done. now rewrite Ct, Ht, Cw.
Qed.

Lemma step_values (h : Hooks) (e : Event) :
  Coherent h ->
  let h' := step h e in
  Coherent h' /\ Rendered h' /\
  config h' = config (handle e h) /\
  scores h' = scores (handle e h) /\
  bands h' = bands (handle e h).
Proof.
  intros Hc h'. subst h'. unfold step.
  pose proof (handle_coherent e h Hc) as Hc'.
  destruct (render_coherent _ Hc') as [H1 H2]. done.
Qed.

Lemma handle_bands e (h : Hooks) :
  length (deref (bands (handle e h))) = length (deref (bands h)) /\
  (thresholdsInRange (deref (bands h)) ->
   thresholdsInRange (deref (bands (handle e h)))).
Proof.
  destruct e as [key val | [[msg | json] |] | | | | idx v | idx v];
    cbn [handle handleUpload handleDownloadScores handleScore handleReset
         setBandLabel setBandMin setScores setBands setShowSettings
         bands deref fst]; try done.
  - destruct (doc_model json); done.
  - rewrite length_alter. split; [done |]. unfold thresholdsInRange.
    rewrite !Forall_lookup. intros H i b. rewrite list_lookup_alter.
    case_decide; [| apply H]. subst i.
    destruct (deref (bands h) !! idx) as [b0 |] eqn:E; [| done].
    intros [= <-]. cbn. now apply (H idx).
  - rewrite length_alter. split; [done |]. unfold thresholdsInRange.
    rewrite !Forall_lookup. intros H i b. rewrite list_lookup_alter.
    case_decide; [| apply H]. subst i.
    destruct (deref (bands h) !! idx) as [b0 |] eqn:E; [| done].
    intros [= <-]. cbn. apply clamp_percentage.
Qed.

End ComponentEvents.

(** X15. With a config without infinite weights, a reset leaves no rating
    and shows the score 0 with the grade of 0, the config and the bands
    staying; so does the upload of a config without infinite weights. *)
Theorem empty_ratings_score_zero :
  forall (cfg : Config) (sc : gmap string float) (bs : list Band)
         (trace : list App.Event),
    let h := App.run cfg sc bs trace in
    (finiteWeights (model (App.deref (App.config h))) ->
     let h' := App.step h App.EReset in
     App.deref (App.scores h') = ∅ /\ App.totalPct h' = 0 /\
     App.finalGrade h' = gradeFromScore 0 (App.deref (App.bands h)) /\
     App.config h' = App.config h /\ App.bands h' = App.bands h) /\
    (forall json m,
        App.doc_model json = Some m -> finiteWeights m ->
        let h' := App.step h (App.EUpload (Some (App.Returned json))) in
        App.totalPct h' = 0 /\
        App.finalGrade h' = gradeFromScore 0 (App.deref (App.bands h))).
Proof.
  intros cfg sc bs trace h.
  destruct (run_coherent cfg sc bs trace) as [Hc _]. fold h in Hc.
  split.
  - intros Hf h'.
    destruct (step_values h App.EReset Hc) as (Hc' & Hr' & Hcfg & Hsc & Hbs).
    fold h' in Hc', Hr', Hcfg, Hsc, Hbs.
    destruct (rendered_values h' Hc' Hr') as [Hp Hg].
    rewrite Hcfg, Hsc in Hp.
    cbn [App.handle App.handleReset App.setScores App.scores App.config
         App.deref] in Hp.
    rewrite zero_ratings_total in Hp by (done || apply ratedAt_empty).
    change (totalPct_of 0) with 0 in Hp.
    rewrite Hg, Hp, Hbs, Hsc, Hcfg. done.
  - intros json m Hm Hf h'.
    destruct (step_values h (App.EUpload (Some (App.Returned json))) Hc)
      as (Hc' & Hr' & Hcfg & Hsc & Hbs).
    fold h' in Hc', Hr', Hcfg, Hsc, Hbs.
    destruct (rendered_values h' Hc' Hr') as [Hp Hg].
    rewrite Hcfg, Hsc in Hp. cbn [App.handle App.handleUpload] in Hp, Hbs.
    rewrite Hm in Hp, Hbs.
    cbn [fst App.setScores App.setConfig App.scores App.config App.bands
         App.deref model] in Hp, Hbs.
    rewrite zero_ratings_total in Hp by (done || apply ratedAt_empty).
    change (totalPct_of 0) with 0 in Hp.
    rewrite Hg, Hp, Hbs. done.
Qed.

Lemma empty_ratings_score_zero_witness :
  App.totalPct
    (App.step (App.run (mkConfig None two_dims) {[ "Risk::PAR" := 4 ]}
                       initial_bands [])
              App.EReset) = 0.
Proof.
  apply (proj1 (empty_ratings_score_zero (mkConfig None two_dims)
                  {[ "Risk::PAR" := 4 ]} initial_bands [])).
  apply two_dims_finite.
Defined.

(** X16. In every state the component reaches, the score it shows is NaN
    or lies between 0 and 100, and is never [-0]. *)
Theorem totalPct_is_a_percentage :
  forall (cfg : Config) (sc : gmap string float) (bs : list Band)
         (trace : list App.Event),
    percentage (App.totalPct (App.run cfg sc bs trace)) /\
    Leibniz.eqb (App.totalPct (App.run cfg sc bs trace)) neg_zero = false.
Proof.
  intros cfg sc bs trace.
  destruct (run_coherent cfg sc bs trace) as [Hc Hr].
  destruct (rendered_values _ Hc Hr) as [-> _]. unfold totalPct_of.
  split; [apply clamp_percentage |].
  now destruct (clamp_bounds
                  (Number_toFixed2
                     (total (computeWeighted
                               (model (App.deref (App.config (App.run cfg sc bs trace))))
                               (App.deref (App.scores (App.run cfg sc bs trace)))) * 100))
                  100 eq_refl) as (_ & _ & _ & ?).
Qed.

(** X17. No action adds or removes a band, and started with thresholds
    that are percentages the component keeps them so: an edited threshold
    is clamped to [0, 100]. *)
Theorem bands_keep_count_and_range :
  forall (cfg : Config) (sc : gmap string float) (bs : list Band)
         (trace : list App.Event),
    length (App.deref (App.bands (App.run cfg sc bs trace))) = length bs /\
    (thresholdsInRange bs ->
     thresholdsInRange (App.deref (App.bands (App.run cfg sc bs trace)))).
Proof.
  intros cfg sc bs trace. unfold App.run.
  change bs with (App.deref (App.bands (App.mount cfg sc bs))) at 2 3.
  generalize (App.mount cfg sc bs). induction trace as [| e trace IH];
    intros h; [done |].
  cbn [fold_left]. destruct (IH (App.step h e)) as [IH1 IH2].
  unfold App.step in *.
  destruct (render_state (App.handle e h)) as (_ & _ & Hb & _).
  rewrite Hb in IH1, IH2. destruct (handle_bands e h) as [H1 H2].
  split; [congruence |]. intros H. now apply IH2, H2.
Qed.

Lemma initial_bands_in_range : thresholdsInRange initial_bands.
Proof. repeat constructor; right; split; reflexivity. Qed.

Lemma bands_keep_count_and_range_witness :
  thresholdsInRange
    (App.deref (App.bands (App.run DEFAULT_CONFIG ∅ initial_bands
                                   [App.EBandMin 1 250]))).
Proof.
  apply (proj2 (bands_keep_count_and_range DEFAULT_CONFIG ∅ initial_bands
                  [App.EBandMin 1 250])).
  apply initial_bands_in_range.
Defined.

(** X18. Editing a band never changes the score, the ratings or the
    config.  A label edit keeps every threshold, a threshold edit keeps
    every label and stores the clamped value; the grade shown afterwards
    is that of the unchanged score on the edited bands. *)
Theorem band_edit_keeps_the_score :
  forall (cfg : Config) (sc : gmap string float) (bs : list Band)
         (trace : list App.Event) (idx : nat),
    let h := App.run cfg sc bs trace in
    (forall v,
        let h' := App.step h (App.EBandLabel idx v) in
        App.totalPct h' = App.totalPct h /\
        App.scores h' = App.scores h /\ App.config h' = App.config h /\
        map min (App.deref (App.bands h')) = map min (App.deref (App.bands h)) /\
        (forall b, App.deref (App.bands h) !! idx = Some b ->
                   App.deref (App.bands h') !! idx = Some (mkBand v (min b))) /\
        App.finalGrade h'
          = gradeFromScore (App.totalPct h) (App.deref (App.bands h'))) /\
    (forall v,
        let h' := App.step h (App.EBandMin idx v) in
        App.totalPct h' = App.totalPct h /\
        App.scores h' = App.scores h /\ App.config h' = App.config h /\
        map label (App.deref (App.bands h'))
          = map label (App.deref (App.bands h)) /\
        (forall b, App.deref (App.bands h) !! idx = Some b ->
                   App.deref (App.bands h') !! idx
                   = Some (mkBand (label b) (clamp v 0 100))) /\
        App.finalGrade h'
          = gradeFromScore (App.totalPct h) (App.deref (App.bands h'))).
Proof.
  intros cfg sc bs trace idx h.
  destruct (run_coherent cfg sc bs trace) as [Hc Hr]. fold h in Hc, Hr.
  destruct (rendered_values h Hc Hr) as [Hp _].
  split; intros v h'.
  - destruct (step_values h (App.EBandLabel idx v) Hc)
      as (Hc' & Hr' & Hcfg & Hsc & Hbs). fold h' in Hc', Hr', Hcfg, Hsc, Hbs.
    destruct (rendered_values h' Hc' Hr') as [Hp' Hg'].
    rewrite Hcfg, Hsc in Hp'.
    cbn [App.handle App.setBandLabel App.setBands App.scores App.config
         App.bands] in Hp', Hcfg, Hsc, Hbs.
    rewrite <- Hp in Hp'. rewrite Hp' in Hg'. rewrite Hbs. cbn [App.deref].
    split; [done |]. split; [done |]. split; [done |]. split; [| split].
    + change (map min) with (fmap (M := list) min).
      rewrite (list_fmap_alter min _ id); [apply list_alter_id; done |].
      now apply Forall_forall.
    + intros b Hb. now rewrite list_lookup_alter_eq, Hb.
    + now rewrite Hg', Hbs.
  - destruct (step_values h (App.EBandMin idx v) Hc)
      as (Hc' & Hr' & Hcfg & Hsc & Hbs). fold h' in Hc', Hr', Hcfg, Hsc, Hbs.
    destruct (rendered_values h' Hc' Hr') as [Hp' Hg'].
    rewrite Hcfg, Hsc in Hp'.
    cbn [App.handle App.setBandMin App.setBands App.scores App.config
         App.bands] in Hp', Hcfg, Hsc, Hbs.
    rewrite <- Hp in Hp'. rewrite Hp' in Hg'. rewrite Hbs. cbn [App.deref].
    split; [done |]. split; [done |]. split; [done |]. split; [| split].
    + change (map label) with (fmap (M := list) label).
      rewrite (list_fmap_alter label _ id); [apply list_alter_id; done |].
      now apply Forall_forall.
    + intros b Hb. now rewrite list_lookup_alter_eq, Hb.
    + now rewrite Hg', Hbs.
Qed.

(** X19. An upload without a file does nothing and alerts nothing; like an
    upload that throws, it leaves the rendered component, memoised values
    included, exactly as it was, and toggling the settings panel twice
    does too. *)
Theorem events_without_effect :
  forall (cfg : Config) (sc : gmap string float) (bs : list Band)
         (trace : list App.Event),
    let h := App.run cfg sc bs trace in
    App.handleUpload None h = (h, None) /\
    App.step h (App.EUpload None) = h /\
    (forall message, App.step h (App.EUpload (Some (App.Threw message))) = h) /\
    App.step (App.step h App.EToggleSettings) App.EToggleSettings = h.
Proof.
  intros cfg sc bs trace h.
  destruct (run_coherent cfg sc bs trace) as [Hc Hr]. fold h in Hc, Hr.
  split; [done |].
  split; [now apply render_rendered |].
  split; [intros message; now apply render_rendered |].
  assert (Ht : forall x, Invariant.Coherent x -> Invariant.Rendered x ->
                         App.step x App.EToggleSettings
                         = App.setShowSettings (negb (App.showSettings x)) x).
  { intros x Hx Hrx. unfold App.step. cbn [App.handle]. apply render_rendered.
    - destruct Hx. now constructor.
    - destruct Hrx. now constructor. }
  rewrite (Ht h Hc Hr). rewrite Ht.
  - destruct h. cbn. now rewrite negb_involutive.
  - destruct Hc. now constructor.
  - destruct Hr. now constructor.
Qed.
